(** * SEOStudio: the Gemini invoker, the URL cleaner and the word counter

    A shallow embedding of [src/myseotools.jsx]:
    - [Gemini.generateContent], the request loop with its backoff schedule;
    - [UrlTrimmer.cleanUrls], the line-wise tracking-parameter remover;
    - [WordCounter.stats], the five counters of the word counter panel;
    - [Panels], the handlers of the four panels that call the invoker and
      the box that shows their result;
    - [App], the tools of the application and its navigation.

    JavaScript strings are sequences of UTF-16 code units, so a string is a
    [list N]; [Js.str] turns an ASCII literal into such a sequence.  The
    platform pieces the program calls (fetch, the URL parser) are inputs of
    the model; the pieces whose behaviour the program relies on in detail
    (String.prototype.trim and split, the two regular expressions,
    URLSearchParams) are written out after their standards, with the
    engine as an input where engines depart from them. *)

From Stdlib Require Import NArith List String Ascii Lia Bool DecimalString.
From stdpp Require Import gmap list.

#[local] Set Warnings "-register-all".
#[local] Open Scope N_scope.

(* ================================================================== *)
(** * Part I: the program *)
(* ================================================================== *)

Module Js.

(** A JavaScript string: its UTF-16 code units. *)
Definition jsstring := list N.

(** An ASCII literal of the source as a JavaScript string. *)
Definition str (s : string) : jsstring :=
  map N_of_ascii (list_ascii_of_string s).

(** Number-to-string conversion of a non-negative integer (template
    literals and [+ " min"]). *)
Definition decimal (n : N) : jsstring :=
  str (NilEmpty.string_of_uint (N.to_uint n)).

(** A number as a parsed JSON document can hold it.  Doubles are not
    modelled: a number is carried with the two observations the program can
    make on it, its truthiness and its string conversion. *)
Record number := {
  number_is_zero_or_nan : bool;
  number_to_string : jsstring
}.

(** The values reachable from [response.json()], plus [undefined], which
    property reads produce. *)
Inductive value :=
| VUndefined
| VNull
| VBool (b : bool)
| VNumber (n : number)
| VString (s : jsstring)
| VArray (elems : list value)
| VObject (props : gmap jsstring value).

(** What a [throw] can carry in [generateContent]. *)
Inductive thrown :=
| NewError (message : jsstring)
    (* [new Error(message)], built by the program *)
| Rejection (reason : jsstring)
    (* the rejection of [fetch] or of [response.json()], passed through;
       [reason] is its message *)
| TypeErrorNullish (property : jsstring)
    (* engine TypeError: property read on [null] or [undefined] *)
| TypeErrorToPrimitive.
    (* engine TypeError: an object could not be converted to a string *)

(** Completion of an expression or statement list: a value or a throw. *)
Inductive completion (A : Type) :=
| Normal (a : A)
| Throw (e : thrown).
Arguments Normal {A} a.
Arguments Throw {A} e.

#[global] Instance completion_ret : MRet completion := fun _ a => Normal a.
#[global] Instance completion_bind : MBind completion := fun _ _ k c =>
  match c with
  | Normal a => k a
  | Throw e => Throw e
  end.

(** ToBoolean. *)
Definition ToBoolean (v : value) : bool :=
  match v with
  | VUndefined | VNull => false
  | VBool b => b
  | VNumber n => negb (number_is_zero_or_nan n)
  | VString s => negb (bool_decide (s = []))
  | VArray _ | VObject _ => true
  end.

(** [a || b]. *)
Definition or_else (a b : value) : value :=
  if ToBoolean a then a else b.

(** Property keys: a name ([.candidates]) or an index ([[0]]). *)
Inductive key :=
| KName (name : jsstring)
| KIndex (i : nat).

Definition key_string (k : key) : jsstring :=
  match k with
  | KName s => s
  | KIndex i => decimal (N.of_nat i)
  end.

(** [v[k]] for a [v] that is neither [null] nor [undefined].  Own properties
    only: the names the program reads (candidates, content, parts, text,
    error, message) are on no prototype, and neither is an index. *)
Definition get (v : value) (k : key) : value :=
  match v with
  | VObject props => default VUndefined (props !! key_string k)
  | VArray elems =>
      match k with
      | KIndex i => nth i elems VUndefined
      | KName _ => VUndefined
      end
  | VString s =>
      match k with
      | KIndex i =>
          match s !! i with
          | Some c => VString [c]
          | None => VUndefined
          end
      | KName _ => VUndefined
      end
  | _ => VUndefined
  end.

Definition is_nullish (v : value) : bool :=
  match v with
  | VUndefined | VNull => true
  | _ => false
  end.

(** [v.k]: a TypeError on [null] and [undefined]. *)
Definition member (v : value) (k : key) : completion value :=
  if is_nullish v then Throw (TypeErrorNullish (key_string k))
  else Normal (get v k).

(** [v?.k]: [undefined] on [null] and [undefined]. *)
Definition opt_member (v : value) (k : key) : value :=
  if is_nullish v then VUndefined else get v k.

(** ToString, as [new Error(message)] applies it to its argument.  An array
    joins its elements with commas, [null] and [undefined] elements as the
    empty string; a plain object prints as [[object Object]] unless an own
    [toString] property (never callable in parsed JSON) hides the inherited
    method, in which case the conversion throws. *)
Fixpoint ToString (v : value) : completion jsstring :=
  match v with
  | VUndefined => Normal (str "undefined")
  | VNull => Normal (str "null")
  | VBool true => Normal (str "true")
  | VBool false => Normal (str "false")
  | VNumber n => Normal (number_to_string n)
  | VString s => Normal s
  | VArray elems =>
      (fix join (l : list value) : completion jsstring :=
         match l with
         | [] => Normal []
         | e :: l' =>
             match (match e with
                    | VUndefined | VNull => Normal []
                    | _ => ToString e
                    end) with
             | Throw x => Throw x
             | Normal s =>
                 match l' with
                 | [] => Normal s
                 | _ :: _ =>
                     match join l' with
                     | Throw x => Throw x
                     | Normal r => Normal (s ++ str "," ++ r)
                     end
                 end
             end
         end) elems
  | VObject props =>
      match props !! str "toString" with
      | Some _ => Throw TypeErrorToPrimitive
      | None => Normal (str "[object Object]")
      end
  end.

(** ** Strings: white space, trim, split, regular expressions *)

(** WhiteSpace and LineTerminator code units: what [trim] strips and what
    [\s] matches. *)
Definition is_whitespace (c : N) : bool :=
  (c =? 9) || (c =? 10) || (c =? 11) || (c =? 12) || (c =? 13) || (c =? 32)
  || (c =? 160) || (c =? 5760) || ((8192 <=? c) && (c <=? 8202))
  || (c =? 8232) || (c =? 8233) || (c =? 8239) || (c =? 8287)
  || (c =? 12288) || (c =? 65279).

Fixpoint trim_start (s : jsstring) : jsstring :=
  match s with
  | [] => []
  | c :: s' => if is_whitespace c then trim_start s' else s
  end.

Fixpoint trim_end (s : jsstring) : jsstring :=
  match s with
  | [] => []
  | c :: s' =>
      match trim_end s' with
      | [] => if is_whitespace c then [] else [c]
      | t => c :: t
      end
  end.

(** [s.trim()]. *)
Definition trim (s : jsstring) : jsstring := trim_end (trim_start s).

(** [s.split(sep)] for a separator of one code unit; [piece] is the part
    of the current piece already read. *)
Fixpoint split_at (sep : N) (piece s : jsstring) : list jsstring :=
  match s with
  | [] => [piece]
  | c :: s' =>
      if c =? sep then piece :: split_at sep [] s'
      else split_at sep (piece ++ [c]) s'
  end.

Definition split_string (sep : N) (s : jsstring) : list jsstring :=
  split_at sep [] s.

(** [a.join(sep)] for an array of strings. *)
Fixpoint join (sep : jsstring) (a : list jsstring) : jsstring :=
  match a with
  | [] => []
  | [x] => x
  | x :: a' => x ++ sep ++ join sep a'
  end.

(** The regular expressions of the program: one-character atoms, greedy
    [*] and [+] over an atom, and sequences. *)
Inductive atom :=
| Lit (c : N)
| WhiteSpaceClass.

Inductive regex :=
| One (a : atom)
| Star (a : atom)
| Plus (a : atom)
| Seq (r1 r2 : regex).

Definition atom_matches (a : atom) (c : N) : bool :=
  match a with
  | Lit c' => c =? c'
  | WhiteSpaceClass => is_whitespace c
  end.

(** Greedy [a*] at the head of [s], then the continuation [k]; on failure
    of [k] the star gives characters back one at a time. *)
Fixpoint match_star (a : atom) (k : jsstring → option jsstring)
    (s : jsstring) : option jsstring :=
  match s with
  | c :: s' =>
      if atom_matches a c then
        match match_star a k s' with
        | Some rest => Some rest
        | None => k s
        end
      else k s
  | [] => k s
  end.

(** Backtracking match of [r] at the head of [s]; [k] matches what follows
    and yields the input left after the whole match. *)
Fixpoint match_at (r : regex) (s : jsstring)
    (k : jsstring → option jsstring) : option jsstring :=
  match r with
  | One a =>
      match s with
      | c :: s' => if atom_matches a c then k s' else None
      | [] => None
      end
  | Star a => match_star a k s
  | Plus a =>
      match s with
      | c :: s' => if atom_matches a c then match_star a k s' else None
      | [] => None
      end
  | Seq r1 r2 => match_at r1 s (λ s', match_at r2 s' k)
  end.

(** A sticky match at the head of [s]: the input after the match. *)
Definition exec (r : regex) (s : jsstring) : option jsstring :=
  match_at r s Some.

(** The loop of RegExp.prototype[Symbol.split] on a non-empty string:
    [piece] is the input between the end [p] of the last separator and the
    search position [q], and [s] the input from [q] on.  A match that ends
    at [p] (empty, right after the last separator) is skipped. *)
Fixpoint split_from (r : regex) (fuel : nat) (piece s : jsstring)
    : list jsstring :=
  match fuel with
  | O => []
  | S fuel' =>
      match s with
      | [] => [piece]
      | c :: s' =>
          match exec r s with
          | None => split_from r fuel' (piece ++ [c]) s'
          | Some rest =>
              if bool_decide (piece = []) && (length rest =? length s)%nat
              then split_from r fuel' (piece ++ [c]) s'
              else piece :: split_from r fuel' [] rest
          end
      end
  end.

(** [s.split(r)] for a regular expression without groups.  Every step
    of the loop either moves the search position or, at most once per
    position, closes a piece, so [2 * length s + 1] steps suffice. *)
Definition split (r : regex) (s : jsstring) : list jsstring :=
  match s with
  | [] =>
      match exec r [] with
      | Some _ => []
      | None => [[]]
      end
  | _ :: _ => split_from r (2 * length s + 1) [] s
  end.

(** [s.replace(r, '')] for a global [r] that is a single atom: every
    matching code unit is removed. *)
Definition remove_all (a : atom) (s : jsstring) : jsstring :=
  List.filter (λ c, negb (atom_matches a c)) s.

End Js.

Module Gemini.
Import Js.

(** [const apiKey = ""]. *)
Definition apiKey : jsstring := str "".

Definition model : jsstring := str "gemini-2.5-flash-preview-09-2025".

Definition url : jsstring :=
  str "https://generativelanguage.googleapis.com/v1beta/models/" ++ model
  ++ str ":generateContent?key=" ++ apiKey.

(** The request body before [JSON.stringify]. *)
Definition payload (prompt systemInstruction : jsstring) : value :=
  VObject (<[ str "contents" :=
                VArray [VObject {[ str "parts" :=
                  VArray [VObject {[ str "text" := VString prompt ]}] ]}] ]>
           {[ str "systemInstruction" :=
                VObject {[ str "parts" :=
                  VArray [VObject {[ str "text" := VString systemInstruction ]}] ]} ]}).

Definition delays : list N := [1000; 2000; 4000; 8000; 16000].

(** What [await response.json()] does. *)
Inductive body_outcome :=
| BodyRejects (reason : jsstring)
| BodyJson (data : value).

Record response := {
  status : N;
  body : body_outcome
}.

(** [response.ok]: the status is in 200..299. *)
Definition ok (r : response) : bool :=
  (200 <=? status r) && (status r <=? 299).

(** What [await fetch(url, ...)] does. *)
Inductive fetch_outcome :=
| FetchRejects (reason : jsstring)
| FetchResolves (r : response).

(** [await response.json()]. *)
Definition json (r : response) : completion value :=
  match body r with
  | BodyRejects reason => Throw (Rejection reason)
  | BodyJson data => Normal data
  end.

(** [data.candidates?.[0]?.content?.parts?.[0]?.text || "No response generated."] *)
Definition extract_text (data : value) : completion value :=
  candidates ← member data (KName (str "candidates"));
  let first := opt_member candidates (KIndex 0) in
  let content := opt_member first (KName (str "content")) in
  let parts := opt_member content (KName (str "parts")) in
  let part := opt_member parts (KIndex 0) in
  let text := opt_member part (KName (str "text")) in
  mret (or_else text (VString (str "No response generated."))).

(** [errorData.error?.message || "API Request Failed"], then [new Error]. *)
Definition error_of_body (errorData : value) : completion thrown :=
  err ← member errorData (KName (str "error"));
  let message := opt_member err (KName (str "message")) in
  s ← ToString (or_else message (VString (str "API Request Failed")));
  mret (NewError s).

(** The body of the [try] block, after [fetch] has settled. *)
Definition try_block (o : fetch_outcome) : completion value :=
  match o with
  | FetchRejects reason => Throw (Rejection reason)
  | FetchResolves r =>
      if negb (ok r) then
        if (status r =? 429) || (500 <=? status r) then
          Throw (NewError (str "API Error: " ++ decimal (status r)))
        else
          errorData ← json r;
          e ← error_of_body errorData;
          Throw e
      else
        data ← json r;
        extract_text data
  end.

(** What the invoker does to the outside world. *)
Inductive event :=
| Fetch (url : jsstring) (body : value)
| Sleep (ms : N).

(** The one call the loop repeats. *)
Definition request (prompt systemInstruction : jsstring) : event :=
  Fetch url (payload prompt systemInstruction).

(** The [for] loop from index [i] with [n] iterations left; [env k] is what
    the [k]-th call of [fetch] does.  Falling out of the loop returns
    [undefined]. *)
Fixpoint loop (env : nat → fetch_outcome) (request : event) (n i : nat)
    (trace : list event) : completion value * list event :=
  match n with
  | O => (Normal VUndefined, trace)
  | S n' =>
      let trace := trace ++ [request] in
      match try_block (env i) with
      | Normal v => (Normal v, trace)
      | Throw error =>
          if bool_decide (i = length delays) then (Throw error, trace)
          else loop env request n' (S i) (trace ++ [Sleep (nth i delays 0)])
      end
  end.

(** [generateContent(prompt, systemInstruction)]: its completion and the
    calls and sleeps it made, oldest first. *)
Definition generateContent (env : nat → fetch_outcome)
    (prompt systemInstruction : jsstring) : completion value * list event :=
  loop env (request prompt systemInstruction) (S (length delays)) 0 [].

End Gemini.

(** The pieces of the URL and Encoding standards behind [new URL(...)],
    [url.searchParams.delete(...)] and [url.toString()]. *)
Module Url.
Import Js.

(** *** UTF-8 *)

(** UTF-8 encoder: the bytes of one scalar value. *)
Definition utf8_encode_code_point (c : N) : list N :=
  if c <? 128 then [c]
  else if c <? 2048 then
    [N.shiftr c 6 + 192; N.lor 128 (N.land c 63)]
  else if c <? 65536 then
    [N.shiftr c 12 + 224; N.lor 128 (N.land (N.shiftr c 6) 63);
     N.lor 128 (N.land c 63)]
  else
    [N.shiftr c 18 + 240; N.lor 128 (N.land (N.shiftr c 12) 63);
     N.lor 128 (N.land (N.shiftr c 6) 63); N.lor 128 (N.land c 63)].

Definition utf8_encode (s : list N) : list N :=
  flat_map utf8_encode_code_point s.

(** The state of the UTF-8 decoder. *)
Record decoder := {
  code_point : N;
  bytes_seen : N;
  bytes_needed : N;
  lower_boundary : N;
  upper_boundary : N
}.

Definition initial : decoder := {|
  code_point := 0; bytes_seen := 0; bytes_needed := 0;
  lower_boundary := 128; upper_boundary := 191
|}.

Inductive handler_result :=
| Continue (d : decoder)
| Emit (c : N) (d : decoder)
| Error (d : decoder) (restore : bool).

(** The decoder's handler on one byte; [restore] asks for the byte to be
    read again. *)
Definition handler (d : decoder) (byte : N) : handler_result :=
  if bytes_needed d =? 0 then
    if byte <=? 127 then Emit byte d
    else if (194 <=? byte) && (byte <=? 223) then
      Continue {| code_point := N.land byte 31; bytes_seen := bytes_seen d;
                  bytes_needed := 1;
                  lower_boundary := lower_boundary d;
                  upper_boundary := upper_boundary d |}
    else if (224 <=? byte) && (byte <=? 239) then
      Continue {| code_point := N.land byte 15; bytes_seen := bytes_seen d;
                  bytes_needed := 2;
                  lower_boundary :=
                    if byte =? 224 then 160 else lower_boundary d;
                  upper_boundary :=
                    if byte =? 237 then 159 else upper_boundary d |}
    else if (240 <=? byte) && (byte <=? 244) then
      Continue {| code_point := N.land byte 7; bytes_seen := bytes_seen d;
                  bytes_needed := 3;
                  lower_boundary :=
                    if byte =? 240 then 144 else lower_boundary d;
                  upper_boundary :=
                    if byte =? 244 then 143 else upper_boundary d |}
    else Error d false
  else if negb ((lower_boundary d <=? byte) && (byte <=? upper_boundary d))
  then Error initial true
  else
    let c := N.lor (N.shiftl (code_point d) 6) (N.land byte 63) in
    let seen := bytes_seen d + 1 in
    if negb (seen =? bytes_needed d) then
      Continue {| code_point := c; bytes_seen := seen;
                  bytes_needed := bytes_needed d;
                  lower_boundary := 128; upper_boundary := 191 |}
    else Emit c initial.

(** UTF-8 decode without BOM, errors replaced by U+FFFD. *)
Fixpoint utf8_decode_from (d : decoder) (bytes : list N) : list N :=
  match bytes with
  | [] => if bytes_needed d =? 0 then [] else [65533]
  | b :: rest =>
      match handler d b with
      | Continue d' => utf8_decode_from d' rest
      | Emit c d' => c :: utf8_decode_from d' rest
      | Error d' false => 65533 :: utf8_decode_from d' rest
      | Error d' true =>
          65533 ::
          match handler d' b with
          | Continue d'' => utf8_decode_from d'' rest
          | Emit c d'' => c :: utf8_decode_from d'' rest
          | Error d'' _ => 65533 :: utf8_decode_from d'' rest
          end
      end
  end.

Definition utf8_decode (bytes : list N) : list N :=
  utf8_decode_from initial bytes.

(** *** Percent-encoding *)

Definition is_ascii_alphanumeric (c : N) : bool :=
  ((48 <=? c) && (c <=? 57)) || ((65 <=? c) && (c <=? 90))
  || ((97 <=? c) && (c <=? 122)).

(** The application/x-www-form-urlencoded percent-encode set holds every
    code point except the ASCII alphanumerics and [*], [-], [.] and [_]. *)
Definition in_urlencoded_percent_encode_set (c : N) : bool :=
  negb (is_ascii_alphanumeric c || (c =? 42) || (c =? 45) || (c =? 46)
        || (c =? 95)).

Definition hex_digit (n : N) : N :=
  if n <? 10 then 48 + n else 55 + n.

(** Percent-encode a byte: [%] and two upper-case hexadecimal digits. *)
Definition percent_encode (byte : N) : list N :=
  [37; hex_digit (N.shiftr byte 4); hex_digit (N.land byte 15)].

Definition hex_value (c : N) : option N :=
  if (48 <=? c) && (c <=? 57) then Some (c - 48)
  else if (65 <=? c) && (c <=? 70) then Some (c - 55)
  else if (97 <=? c) && (c <=? 102) then Some (c - 87)
  else None.

(** Percent-decode a byte sequence. *)
Fixpoint percent_decode (input : list N) : list N :=
  match input with
  | [] => []
  | byte :: rest =>
      if byte =? 37 then
        match rest with
        | h :: l :: rest' =>
            match hex_value h, hex_value l with
            | Some a, Some b => (16 * a + b) :: percent_decode rest'
            | _, _ => byte :: percent_decode rest
            end
        | _ => byte :: percent_decode rest
        end
      else byte :: percent_decode rest
  end.

(** Percent-encode after encoding, with the urlencoded set and
    spaceAsPlus: what one byte of the encoding becomes, and the whole. *)
Definition urlencoded_encode_byte (byte : N) : list N :=
  if byte =? 32 then [43]
  else if in_urlencoded_percent_encode_set byte then percent_encode byte
  else [byte].

Definition urlencoded_encode (s : list N) : list N :=
  flat_map urlencoded_encode_byte (utf8_encode s).

(** *** application/x-www-form-urlencoded *)

(** The serializer: [name=value] pairs joined by [&]. *)
Definition urlencoded_serialize (tuples : list (list N * list N)) : list N :=
  join [38] (map (λ t, urlencoded_encode t.1 ++ [61] ++ urlencoded_encode t.2)
                 tuples).

(** A byte sequence up to its first [=], and what follows it. *)
Fixpoint split_name_value (bytes : list N) : list N * list N :=
  match bytes with
  | [] => ([], [])
  | b :: rest =>
      if b =? 61 then ([], rest)
      else let (name, value) := split_name_value rest in (b :: name, value)
  end.

Definition plus_to_space (bytes : list N) : list N :=
  map (λ b, if b =? 43 then 32 else b) bytes.

(** The parser, on bytes. *)
Definition urlencoded_parse (input : list N) : list (list N * list N) :=
  omap (λ bytes,
    if bool_decide (bytes = []) then None
    else
      let (name, value) := split_name_value bytes in
      Some (utf8_decode (percent_decode (plus_to_space name)),
            utf8_decode (percent_decode (plus_to_space value))))
    (split_string 38 input).

(** *** URL records and URL objects *)

(** A URL record as the serializer sees it: the serialization of scheme,
    authority and path, then the query and the fragment.  [opaque_path]
    tells whether the path is an opaque path, a single string as in
    [data:] and [mailto:] URLs; such a URL has no authority, its path
    follows the colon of the scheme and ends [before_query].  The query of
    a URL record is an ASCII string, its code units are its bytes. *)
Record URL := {
  before_query : jsstring;
  opaque_path : bool;
  query : option jsstring;
  fragment : option jsstring
}.

(** The URL serializer. *)
Definition URL_serialize (u : URL) : jsstring :=
  before_query u
  ++ match query u with Some q => 63 :: q | None => [] end
  ++ match fragment u with Some f => 35 :: f | None => [] end.

(** A URL object: its URL record and the list of its query object. *)
Record URLObject := {
  url : URL;
  searchParams : list (list N * list N)
}.

(** [new URL(input)]: [parse] is the platform's URL parser without a base
    URL, [None] being failure (the constructor throws). *)
Definition new_URL (parse : jsstring → option URL) (input : jsstring)
    : option URLObject :=
  u ← parse input;
  Some {| url := u;
          searchParams := urlencoded_parse (default [] (query u)) |}.

(** Remove all trailing U+0020 SPACE code points. *)
Fixpoint strip_trailing_spaces (s : jsstring) : jsstring :=
  match s with
  | [] => []
  | c :: s' =>
      match strip_trailing_spaces s' with
      | [] => if c =? 32 then [] else [c]
      | t => c :: t
      end
  end.

Definition set_query (q : option jsstring) (u : URL) : URL :=
  {| before_query := before_query u; opaque_path := opaque_path u;
     query := q; fragment := fragment u |}.

(** Potentially strip trailing spaces from an opaque path: nothing is done
    unless the URL has an opaque path, no fragment and no query.  The
    trailing spaces of an opaque path are those of [before_query]. *)
Definition potentially_strip_trailing_spaces (u : URL) : URL :=
  match opaque_path u, fragment u, query u with
  | true, None, None =>
      {| before_query := strip_trailing_spaces (before_query u);
         opaque_path := true; query := None; fragment := None |}
  | _, _, _ => u
  end.

(** Platforms agree on what [delete] does to the list and to the query.
    They differ on when an opaque path loses its trailing spaces.  The
    update steps of the URL standard strip them when the query has become
    null.  Node.js empties the query of the URL at every change of the
    list, which strips them at once, and writes the list back as the query
    when the URL is read. *)
Inductive engine := UrlStandard | NodeJs.

(** The update steps of a query object whose list is [list]: the
    serialized list becomes the query of the URL, an empty one no query.
    For Node.js the emptying and the writing back are put together, which
    gives the URL that [toString] finds. *)
Definition update_steps (e : engine) (list : list (list N * list N))
    (u : URL) : URL :=
  let serializedQuery := urlencoded_serialize list in
  let serializedQuery := if bool_decide (serializedQuery = []) then None
                         else Some serializedQuery in
  match e with
  | UrlStandard =>
      let u := set_query serializedQuery u in
      match serializedQuery with
      | None => potentially_strip_trailing_spaces u
      | Some _ => u
      end
  | NodeJs =>
      set_query serializedQuery
        (potentially_strip_trailing_spaces (set_query None u))
  end.

(** [urlObj.searchParams.delete(name)]: remove the tuples named [name],
    then run the update steps.  The steps run whether or not a tuple was
    removed. *)
Definition searchParams_delete (e : engine) (name : list N) (o : URLObject)
    : URLObject :=
  let list := List.filter (λ t, negb (bool_decide (t.1 = name))) (searchParams o) in
  {| url := update_steps e list (url o); searchParams := list |}.

(** [urlObj.toString()]. *)
Definition toString (o : URLObject) : jsstring := URL_serialize (url o).

End Url.

Module UrlTrimmer.
Import Js Url.

Definition paramsToRemove : list jsstring :=
  [str "utm_source"; str "utm_medium"; str "utm_campaign"; str "utm_term";
   str "utm_content"; str "fbclid"; str "gclid"; str "ref"; str "_ga"].

(** The callback of [lines.map], on the platform given by [e] and
    [parse]. *)
Definition cleanLine (e : engine) (parse : jsstring → option URL)
    (line : jsstring) : jsstring :=
  let trimmedLine := trim line in
  if bool_decide (trimmedLine = []) then []
  else
    match new_URL parse trimmedLine with
    | Some urlObj =>
        toString (fold_left (λ o param, searchParams_delete e param o)
                            paramsToRemove urlObj)
    | None => trimmedLine ++ str " (Invalid URL)"
    end.

(** [cleanUrls]: the text it stores with [setCleanedUrl]. *)
Definition cleanUrls (e : engine) (parse : jsstring → option URL)
    (inputUrl : jsstring) : jsstring :=
  let lines := split_string 10 inputUrl in
  let processed := map (cleanLine e parse) lines in
  join [10] processed.

End UrlTrimmer.

Module WordCounter.
Import Js.

(** [/\s+/], [/\s/g] and [/\n\s*\n/]. *)
Definition whitespace_run : regex := Plus WhiteSpaceClass.
Definition blank_line : regex :=
  Seq (One (Lit 10)) (Seq (Star WhiteSpaceClass) (One (Lit 10))).

(** [Math.ceil(n / 200)] for a string length [n]: the quotient of two
    integers this small is exact enough in doubles for the ceiling to be
    the integer ceiling. *)
Definition ceil_div_200 (n : N) : N := (n + 199) / 200.

Record stats_record := {
  words : N;
  chars : N;
  charsNoSpace : N;
  paragraphs : N;
  readTime : jsstring
}.

(** The [stats] object computed on every render. *)
Definition stats (text : jsstring) : stats_record := {|
  words :=
    if bool_decide (trim text = []) then 0
    else N.of_nat (length (split whitespace_run (trim text)));
  chars := N.of_nat (length text);
  charsNoSpace := N.of_nat (length (remove_all WhiteSpaceClass text));
  paragraphs :=
    if bool_decide (trim text = []) then 0
    else N.of_nat (length (split blank_line (trim text)));
  readTime :=
    decimal (ceil_div_200 (N.of_nat (length (split whitespace_run (trim text)))))
    ++ str " min"
|}.

End WordCounter.

(** The four panels that call the invoker, and the box that shows their
    result. *)
Module Panels.
Import Js Gemini.

(** The calls of the state setters of a panel. *)
Inductive update :=
| SetLoading (loading : bool)
| SetResult (result : value).

(** What a handler does, in order: state updates and the invoker's calls
    and sleeps. *)
Inductive panel_event :=
| Update (u : update)
| Call (e : event).

(** [error.message] of a caught value: the message given to [new Error],
    the message of a rejection, or, for an error the engine raised, the
    text [engine_text] the engine gives it. *)
Definition error_message (engine_text : thrown → jsstring) (error : thrown)
    : jsstring :=
  match error with
  | NewError message => message
  | Rejection reason => reason
  | TypeErrorNullish _ | TypeErrorToPrimitive => engine_text error
  end.

(** The body the four handlers share: return when the primary field is
    empty; otherwise [setLoading(true)], the invocation, [setResult] with
    its value or with [Error: ] and the message of what it threw, and
    [setLoading(false)] in the [finally] clause. *)
Definition handle (env : nat → fetch_outcome) (engine_text : thrown → jsstring)
    (primary prompt systemInstruction : jsstring) : list panel_event :=
  if bool_decide (primary = []) then []
  else
    let (completion, trace) := generateContent env prompt systemInstruction in
    [Update (SetLoading true)]
    ++ map Call trace
    ++ [Update (SetResult
          match completion with
          | Normal content => content
          | Throw error =>
              VString (str "Error: " ++ error_message engine_text error)
          end);
        Update (SetLoading false)].

Module AiWriter.

Definition prompt (topic keywords tone : jsstring) : jsstring :=
  str "Topic: " ++ topic ++ [10] ++ str "Target Keywords: " ++ keywords
  ++ [10] ++ str "Tone: " ++ tone.

Definition systemInstruction : jsstring :=
  str "You are a professional, industry-grade SEO Article Writer. " ++
  [10] ++
  str "      Write a comprehensive, engaging, and human-like article based on the provided topic." ++
  [10] ++
  str "      - Structure the article with a catchy H1 title, an engaging introduction, multiple H2/H3 subheadings, and a strong conclusion." ++
  [10] ++
  str "      - Seamlessly integrate the provided target keywords without " ++
  [34] ++ str "keyword stuffing" ++ [34] ++ str "." ++ [10] ++
  str "      - Use the requested tone." ++ [10] ++
  str "      - Use markdown formatting for headings, bold text, and lists." ++
  [10] ++ str "      - Ensure the content provides real value to the reader.".

Definition handleGenerate (env : nat → fetch_outcome)
    (engine_text : thrown → jsstring) (topic keywords tone : jsstring)
    : list panel_event :=
  handle env engine_text topic (prompt topic keywords tone) systemInstruction.

End AiWriter.

Module AiImprover.

Definition prompt (content goal : jsstring) : jsstring :=
  str "Content to Improve: " ++ content ++ [10] ++ str "Goal: " ++ goal.

Definition systemInstruction : jsstring :=
  str "You are an expert Content Editor and SEO Specialist." ++ [10] ++
  str "      Rewrite the provided text to improve it based on the specified goal." ++
  [10] ++
  str "      - Maintain the original meaning but enhance clarity, flow, and engagement." ++
  [10] ++ str "      - Use markdown for formatting." ++ [10] ++
  str "      - If the goal is 'SEO', focus on keyword placement and structure." ++
  [10] ++
  str "      - If the goal is 'Readability', focus on shorter sentences and simple words." ++
  [10] ++ str "      - Provide ONLY the rewritten version.".

Definition handleImprove (env : nat → fetch_outcome)
    (engine_text : thrown → jsstring) (content goal : jsstring)
    : list panel_event :=
  handle env engine_text content (prompt content goal) systemInstruction.

End AiImprover.

Module AiProofreader.

Definition prompt (content : jsstring) : jsstring :=
  str "Text to Proofread: " ++ content.

Definition systemInstruction : jsstring :=
  str "You are a strict and meticulous Proofreader using American English." ++
  [10] ++
  str "      1. Correct all spelling, grammar, punctuation, and syntax errors." ++
  [10] ++ str "      2. Fix awkward phrasing." ++ [10] ++
  str "      3. Output the corrected text first." ++ [10] ++
  str "      4. Below the corrected text, provide a bulleted list of the key changes made (e.g., " ++
  [34] ++ str "Fixed comma splice in paragraph 2" ++ [34] ++ str ", " ++
  [34] ++ str "Corrected spelling of 'recieve'" ++ [34] ++ str ")." ++
  [10] ++
  str "      5. Use Markdown. Separator between text and notes should be a horizontal rule (---).".

Definition handleProofread (env : nat → fetch_outcome)
    (engine_text : thrown → jsstring) (content : jsstring)
    : list panel_event :=
  handle env engine_text content (prompt content) systemInstruction.

End AiProofreader.

Module StrategyMaker.

Definition prompt (bizType audience goals : jsstring) : jsstring :=
  str "Business: " ++ bizType ++ [10] ++ str "Audience: " ++ audience
  ++ [10] ++ str "Goals: " ++ goals.

Definition systemInstruction : jsstring :=
  str "You are a Chief Marketing Officer (CMO). Create a detailed Content Marketing Strategy." ++
  [10] ++ str "      Include the following sections using Markdown:" ++
  [10] ++
  str "      1. **Executive Summary**: Brief overview of the strategy." ++
  [10] ++
  str "      2. **Audience Persona**: Deep dive into pain points and needs based on the input." ++
  [10] ++ str "      3. **Content Pillars**: 3-5 core topics to focus on." ++
  [10] ++
  str "      4. **Channel Strategy**: Where to post (Blog, LinkedIn, Instagram, etc.) and why." ++
  [10] ++ str "      5. **Content Calendar Idea**: A sample 1-week plan." ++
  [10] ++ str "      6. **KPIs**: Metrics to track success.".

Definition handleStrategize (env : nat → fetch_outcome)
    (engine_text : thrown → jsstring) (bizType audience goals : jsstring)
    : list panel_event :=
  handle env engine_text bizType (prompt bizType audience goals)
         systemInstruction.

End StrategyMaker.

(** The state a panel holds for its result box, and the updates applied to
    it: [result] starts as the empty string, [loading] as [false]. *)
Record panel_state := {
  result : value;
  loading : bool
}.

Definition panel_initial : panel_state :=
  {| result := VString []; loading := false |}.

Definition apply_event (st : panel_state) (e : panel_event) : panel_state :=
  match e with
  | Update (SetLoading b) => {| result := result st; loading := b |}
  | Update (SetResult v) => {| result := v; loading := loading st |}
  | Call _ => st
  end.

(** What [ResultBox] renders: nothing when there is no content and no
    load; otherwise a box with the copy button when there is content, and
    the spinner while loading or else the content. *)
Inductive box_body :=
| Spinner
| Content (content : value).

Record box := {
  copy_button : bool;
  body : box_body
}.

Definition ResultBox (content : value) (loading : bool) : option box :=
  if negb (ToBoolean content) && negb loading then None
  else Some {| copy_button := ToBoolean content;
               body := if loading then Spinner else Content content |}.

End Panels.

(** The navigation of the application. *)
Module App.
Import Js.

Inductive component :=
| AiWriter | AiImprover | AiProofreader | StrategyMaker
| WordCounter | UrlTrimmer.

Inductive icon :=
| TypeIcon | TrendingUp | CheckCircle | LayoutDashboard | Hash | Scissors.

Record tool := {
  id : jsstring;
  label : jsstring;
  tool_icon : icon;
  tool_component : component
}.

Definition tools : list tool := [
  {| id := str "writer"; label := str "Article Writer";
     tool_icon := TypeIcon; tool_component := AiWriter |};
  {| id := str "improver"; label := str "Article Improver";
     tool_icon := TrendingUp; tool_component := AiImprover |};
  {| id := str "proofreader"; label := str "Proofreader";
     tool_icon := CheckCircle; tool_component := AiProofreader |};
  {| id := str "strategy"; label := str "Strategy Maker";
     tool_icon := LayoutDashboard; tool_component := StrategyMaker |};
  {| id := str "counter"; label := str "Word Counter";
     tool_icon := Hash; tool_component := WordCounter |};
  {| id := str "trimmer"; label := str "URL Cleaner";
     tool_icon := Scissors; tool_component := UrlTrimmer |}
].

(** [tools.find(t => t.id === activeTab)]. *)
Definition find_tool (activeTab : jsstring) : option tool :=
  List.find (λ t, bool_decide (id t = activeTab)) tools.

(** [tools.find(...)?.component || AiWriter]. *)
Definition ActiveComponent (activeTab : jsstring) : component :=
  match find_tool activeTab with
  | Some t => tool_component t
  | None => AiWriter
  end.

(** [tools.find(...)?.label], the title of the header; [None] is
    [undefined]. *)
Definition header_label (activeTab : jsstring) : option jsstring :=
  label <$> find_tool activeTab.

(** The two groups of buttons of the sidebar: [tools.slice(0, 4)] and
    [tools.slice(4)]. *)
Definition ai_tools : list tool := take 4 tools.
Definition utilities : list tool := drop 4 tools.

Record app_state := {
  activeTab : jsstring;
  isSidebarOpen : bool
}.

Definition app_initial : app_state :=
  {| activeTab := str "writer"; isSidebarOpen := false |}.

(** The clicks the page handles: the overlay and the close button of the
    sidebar, the menu button, and the button of the [i]-th tool of either
    group. *)
Inductive action :=
| ClickOverlay
| ClickClose
| ClickMenu
| ClickAiTool (i : nat)
| ClickUtility (i : nat).

(** [setActiveTab(tool.id); setIsSidebarOpen(false)]. *)
Definition select_tool (t : tool) : app_state :=
  {| activeTab := id t; isSidebarOpen := false |}.

(** The state after a click; a group has no button beyond its tools. *)
Definition step (st : app_state) (a : action) : app_state :=
  match a with
  | ClickOverlay | ClickClose =>
      {| activeTab := activeTab st; isSidebarOpen := false |}
  | ClickMenu => {| activeTab := activeTab st; isSidebarOpen := true |}
  | ClickAiTool i =>
      match ai_tools !! i with
      | Some t => select_tool t
      | None => st
      end
  | ClickUtility i =>
      match utilities !! i with
      | Some t => select_tool t
      | None => st
      end
  end.

End App.

(* ================================================================== *)
(** * Part II: the notions of the specification *)
(* ================================================================== *)

Module Spec.
Import Js Gemini.

(** Retryable outcome of an attempt: HTTP 429, HTTP 5xx or a
    transport-level exception. *)
Definition retryable (o : fetch_outcome) : bool :=
  match o with
  | FetchRejects _ => true
  | FetchResolves r =>
      (status r =? 429) || ((500 <=? status r) && (status r <=? 599))
  end.

(** Transport success: a response whose status is in the success range. *)
Definition transport_success (o : fetch_outcome) : bool :=
  match o with
  | FetchRejects _ => false
  | FetchResolves r => (200 <=? status r) && (status r <=? 299)
  end.

(** Terminal outcome: any other non-success status. *)
Definition terminal (o : fetch_outcome) : bool :=
  match o with
  | FetchRejects _ => false
  | FetchResolves r => negb (transport_success o) && negb (retryable o)
  end.

(** The error behind a retryable outcome: the transport exception itself,
    or the error reporting the HTTP status. *)
Definition underlying_error (o : fetch_outcome) : thrown :=
  match o with
  | FetchRejects reason => Rejection reason
  | FetchResolves r => NewError (str "API Error: " ++ decimal (status r))
  end.

(** A transport success whose body reads as the JSON document [data]. *)
Definition success_with (data : value) (o : fetch_outcome) : Prop :=
  ∃ r, o = FetchResolves r ∧ transport_success o = true
       ∧ body r = BodyJson data.

(** The calls and sleeps of a run that retries after each delay of [ds]:
    a request before every sleep, and a last request. *)
Fixpoint retries (request : event) (ds : list N) : list event :=
  match ds with
  | [] => []
  | d :: ds' => request :: Sleep d :: retries request ds'
  end.

Definition schedule (request : event) (ds : list N) : list event :=
  retries request ds ++ [request].

(** Number of attempts and the sleeps, in order, of a trace. *)
Definition attempts (trace : list event) : nat :=
  length (omap (λ e, match e with Fetch u b => Some (u, b) | Sleep _ => None end) trace).

Definition sleeps (trace : list event) : list N :=
  omap (λ e, match e with Sleep ms => Some ms | Fetch _ _ => None end) trace.

(** The documented body shape
    [{ candidates: [{ content: { parts: [{ text }] } }] }]
    holds [text] at the first candidate's first part. *)
Definition has_text (data text : value) : Prop :=
  ∃ (top candidate content part : gmap jsstring value) (cs ps : list value),
    data = VObject top
    ∧ top !! str "candidates" = Some (VArray (VObject candidate :: cs))
    ∧ candidate !! str "content" = Some (VObject content)
    ∧ content !! str "parts" = Some (VArray (VObject part :: ps))
    ∧ part !! str "text" = Some text.

(** The path is absent from a body of the documented shape: candidates,
    the first candidate, content, parts, the first part or text is missing. *)
Inductive path_absent : value → Prop :=
| no_candidates top :
    top !! str "candidates" = None → path_absent (VObject top)
| no_first_candidate top :
    top !! str "candidates" = Some (VArray []) → path_absent (VObject top)
| no_content top candidate cs :
    top !! str "candidates" = Some (VArray (VObject candidate :: cs)) →
    candidate !! str "content" = None →
    path_absent (VObject top)
| no_parts top candidate cs content :
    top !! str "candidates" = Some (VArray (VObject candidate :: cs)) →
    candidate !! str "content" = Some (VObject content) →
    content !! str "parts" = None →
    path_absent (VObject top)
| no_first_part top candidate cs content :
    top !! str "candidates" = Some (VArray (VObject candidate :: cs)) →
    candidate !! str "content" = Some (VObject content) →
    content !! str "parts" = Some (VArray []) →
    path_absent (VObject top)
| no_text top candidate cs content part ps :
    top !! str "candidates" = Some (VArray (VObject candidate :: cs)) →
    candidate !! str "content" = Some (VObject content) →
    content !! str "parts" = Some (VArray (VObject part :: ps)) →
    part !! str "text" = None →
    path_absent (VObject top).

Definition fallback : value := VString (str "No response generated.").

(** What a body of the documented shape answers: its text when that is
    truthy, the fallback string when the text is falsy or the path is
    absent. *)
Inductive answer (data : value) : value → Prop :=
| answer_text text :
    has_text data text → ToBoolean text = true → answer data text
| answer_falsy text :
    has_text data text → ToBoolean text = false → answer data fallback
| answer_absent :
    path_absent data → answer data fallback.

(** ** Word counter *)

(** The tokens of a text: its maximal runs of non-white-space code units;
    [token] is the part of the current token already read. *)
Fixpoint tokens_from (token s : jsstring) : list jsstring :=
  match s with
  | [] => if bool_decide (token = []) then [] else [token]
  | c :: s' =>
      if is_whitespace c then
        if bool_decide (token = []) then tokens_from [] s'
        else token :: tokens_from [] s'
      else tokens_from (token ++ [c]) s'
  end.

Definition tokens (s : jsstring) : list jsstring := tokens_from [] s.

(** Code units that are not white space. *)
Fixpoint count_non_whitespace (s : jsstring) : nat :=
  match s with
  | [] => 0
  | c :: s' =>
      if is_whitespace c then count_non_whitespace s'
      else S (count_non_whitespace s')
  end.

(** A line is blank when it holds white space only. *)
Definition is_blank (line : jsstring) : bool := forallb is_whitespace line.

(** Blocks of a list of lines: maximal groups of consecutive non-blank
    lines; [in_block] tells whether the line before was in a block. *)
Fixpoint count_blocks (in_block : bool) (lines : list jsstring) : nat :=
  match lines with
  | [] => 0
  | l :: lines' =>
      if is_blank l then count_blocks false lines'
      else (if in_block then 0 else 1) + count_blocks true lines'
  end.

(** The blank-line-separated blocks of a text, its lines being what line
    feeds separate. *)
Definition blocks (s : jsstring) : nat :=
  count_blocks false (split_string 10 s).

(** ** URL cleaner *)

(** The tracking parameters. *)
Definition tracked : list jsstring :=
  [str "utm_source"; str "utm_medium"; str "utm_campaign"; str "utm_term";
   str "utm_content"; str "fbclid"; str "gclid"; str "ref"; str "_ga"].

(** The parameters of a query, in order. *)
Definition parameters (u : Url.URL) : list (list N * list N) :=
  Url.urlencoded_parse (default [] (Url.query u)).

(** The parameters that are not tracking parameters, in their order. *)
Definition retained (params : list (list N * list N))
    : list (list N * list N) :=
  List.filter (λ t, negb (bool_decide (t.1 ∈ tracked))) params.

(** What comes before the query once the parameters [params] are left.
    An opaque path of a URL without fragment loses its trailing spaces:
    under the URL standard when no parameter is left, on Node.js in every
    case. *)
Definition before_cleaned (e : Url.engine) (u : Url.URL)
    (params : list (list N * list N)) : jsstring :=
  match Url.opaque_path u, Url.fragment u with
  | true, None =>
      match e, params with
      | Url.UrlStandard, _ :: _ => Url.before_query u
      | _, _ => Url.strip_trailing_spaces (Url.before_query u)
      end
  | _, _ => Url.before_query u
  end.

(** The URL [u] with its query written anew from [params]; no query when
    there are none. *)
Definition with_parameters (e : Url.engine) (u : Url.URL)
    (params : list (list N * list N)) : Url.URL :=
  {| Url.before_query := before_cleaned e u params;
     Url.opaque_path := Url.opaque_path u;
     Url.query :=
       match params with
       | [] => None
       | _ :: _ => Some (Url.urlencoded_serialize params)
       end;
     Url.fragment := Url.fragment u |}.

(** The URL [u] as the cleaner leaves it. *)
Definition cleaned (e : Url.engine) (u : Url.URL) : Url.URL :=
  with_parameters e u (retained (parameters u)).

(** Scalar values: the code points that are not surrogates. *)
Definition is_scalar (c : N) : bool :=
  (c <? 55296) || ((57344 <=? c) && (c <? 1114112)).

End Spec.

(** Scanners used to compare the two sides: each reads the text once. *)
Module Scan.
Import Js.

(** Does the text end with something else than white space? *)
Fixpoint ends_clean (s : jsstring) : bool :=
  match s with
  | [] => true
  | c :: s' =>
      match s' with
      | [] => negb (is_whitespace c)
      | _ :: _ => ends_clean s'
      end
  end.

(** Number of white-space runs that start in [s]; [in_run] tells whether
    the code unit before was white space. *)
Fixpoint runs (in_run : bool) (s : jsstring) : nat :=
  match s with
  | [] => 0
  | c :: s' =>
      if is_whitespace c then (if in_run then 0 else 1) + runs true s'
      else runs false s'
  end.

(** Number of tokens that end in [s]; [in_token] tells whether the code
    unit before was part of a token. *)
Fixpoint count_tokens (in_token : bool) (s : jsstring) : nat :=
  match s with
  | [] => if in_token then 1 else 0
  | c :: s' =>
      if is_whitespace c then
        (if in_token then 1 else 0) + count_tokens false s'
      else count_tokens true s'
  end.

(** Where a white-space run stands: no line feed read yet, one, or two
    and more. *)
Inductive run_state := NoBreak | OneBreak | Separated.

(** Number of white-space runs of [s] that reach their second line feed. *)
Fixpoint separators (st : run_state) (s : jsstring) : nat :=
  match s with
  | [] => 0
  | c :: s' =>
      if c =? 10 then
        match st with
        | NoBreak => separators OneBreak s'
        | OneBreak => S (separators Separated s')
        | Separated => separators Separated s'
        end
      else if is_whitespace c then separators st s'
      else separators NoBreak s'
  end.

(** [Spec.count_blocks] read one code unit at a time: [blank] tells
    whether the current line is blank so far. *)
Fixpoint scan_blocks (in_block blank : bool) (s : jsstring) : nat :=
  match s with
  | [] => if blank then 0 else if in_block then 0 else 1
  | c :: s' =>
      if c =? 10 then
        if blank then scan_blocks false true s'
        else (if in_block then 0 else 1) + scan_blocks true true s'
      else if is_whitespace c then scan_blocks in_block blank s'
      else scan_blocks in_block false s'
  end.

(** What [delete] leaves: the URL object of [o] with the list [params]
    and the URL the update steps make of it. *)
Definition updated (e : Url.engine) (o : Url.URLObject)
    (params : list (list N * list N)) : Url.URLObject :=
  {| Url.url := Url.update_steps e params (Url.url o);
     Url.searchParams := params |}.

(** The decoder is between two code points, or it is inside one and every
    way to complete it ends on a scalar value: with [r] bytes to come, the
    first of them within the boundaries, the code point lies between
    [low] and [high] below. *)
Definition unit_of (remaining : N) : N :=
  if remaining =? 1 then 1 else if remaining =? 2 then 64 else 4096.

Definition decoder_ok (d : Url.decoder) : Prop :=
  d = Url.initial
  ∨ (Url.bytes_seen d < Url.bytes_needed d ∧ Url.bytes_needed d <= 3
     ∧ 128 <= Url.lower_boundary d ∧ Url.upper_boundary d <= 191
     ∧ let unit := unit_of (Url.bytes_needed d - Url.bytes_seen d) in
       let low := Url.code_point d * (64 * unit)
                  + (Url.lower_boundary d - 128) * unit in
       let high := Url.code_point d * (64 * unit)
                   + (Url.upper_boundary d - 128) * unit + unit - 1 in
       high < 55296 ∨ (57344 <= low ∧ high < 1114112)).


(** What one byte becomes in a serialized query, read back: the byte
    itself, not [%], or [%] and the two digits of the byte. *)
Definition reads_as (b : N) (written : list N) : bool :=
  match Url.plus_to_space written with
  | [x] => (x =? b) && negb (x =? 37)
  | [p; h; l] =>
      (p =? 37)
      && match Url.hex_value h, Url.hex_value l with
         | Some a, Some c => 16 * a + c =? b
         | _, _ => false
         end
  | _ => false
  end.

(** Neither [&] nor [=]. *)
Definition is_plain_byte (x : N) : bool := negb (x =? 38) && negb (x =? 61).

(** A byte sequence without the byte [sep]. *)
Definition lacks (sep : N) (x : list N) : bool :=
  forallb (λ b, negb (b =? sep)) x.


(** A tuple of scalar value strings. *)
Definition scalar_tuple (t : list N * list N) : Prop :=
  Forall (λ c, Spec.is_scalar c = true) t.1
  ∧ Forall (λ c, Spec.is_scalar c = true) t.2.

End Scan.

(** Concrete inputs used by the examples below. *)
Module Examples.
Import Js Gemini Url.

(** A 2xx response whose body has the documented shape around [text]. *)
Definition generated (text : value) : fetch_outcome :=
  FetchResolves {|
    status := 200;
    body := BodyJson (VObject {[ str "candidates" :=
      VArray [VObject {[ str "content" :=
        VObject {[ str "parts" :=
          VArray [VObject {[ str "text" := text ]}] ]} ]}] ]})
  |}.

(** HTTP 400 with the endpoint's error document. *)
Definition bad_request : fetch_outcome :=
  FetchResolves {|
    status := 400;
    body := BodyJson (VObject {[ str "error" :=
      VObject {[ str "message" := VString (str "API key not valid") ]} ]})
  |}.

(** HTTP 503; the body is never read. *)
Definition unavailable : fetch_outcome :=
  FetchResolves {| status := 503; body := BodyRejects (str "unread") |}.

(** HTTP 200 carrying something that is not JSON, as a captive portal
    sends. *)
Definition html_page : fetch_outcome :=
  FetchResolves {|
    status := 200;
    body := BodyRejects (str "Unexpected token '<'")
  |}.

(** The two arguments of the invoker. *)
Definition prompt : jsstring := str "Topic: tea".
Definition systemInstruction : jsstring := str "You are a writer.".

(** HTTP 400 first, generated text on every later attempt. *)
Definition bad_request_then_text (k : nat) : fetch_outcome :=
  match k with
  | O => bad_request
  | S _ => generated (VString (str "hi"))
  end.

(** HTTP 503, then a network failure, then generated text. *)
Definition two_failures_then_text (k : nat) : fetch_outcome :=
  match k with
  | 0%nat => unavailable
  | 1%nat => FetchRejects (str "Failed to fetch")
  | _ => generated (VString (str "hi"))
  end.

(** Plain URLs: the inputs below are written the way the URL serializer
    writes them, so that the URL parser gives their parts back as they
    stand.  A host of dot-separated lower-case words; a path that starts
    with [/] and holds letters, digits and [/]; a query and a fragment of
    printable ASCII outside the percent-encode set of their state. *)
Definition is_lower_alpha (c : N) : bool := (97 <=? c) && (c <=? 122).

Definition is_plain_host (host : jsstring) : bool :=
  forallb (λ label, negb (bool_decide (label = [])) && forallb is_lower_alpha label)
          (split_string 46 host).

Definition is_plain_path (path : jsstring) : bool :=
  match path with
  | 47 :: _ => forallb (λ c, is_ascii_alphanumeric c || (c =? 47)) path
  | _ => false
  end.

Definition is_plain_query (q : jsstring) : bool :=
  forallb (λ c, (33 <=? c) && (c <=? 126)
                && negb ((c =? 34) || (c =? 35) || (c =? 39) || (c =? 60)
                         || (c =? 62))) q.

Definition is_plain_fragment (f : jsstring) : bool :=
  forallb (λ c, (33 <=? c) && (c <=? 126)
                && negb ((c =? 34) || (c =? 60) || (c =? 62) || (c =? 96))) f.

(** The input up to the first code unit satisfying [stop], and the rest. *)
Fixpoint break_at (stop : N → bool) (s : jsstring) : jsstring * jsstring :=
  match s with
  | [] => ([], [])
  | c :: s' =>
      if stop c then ([], s)
      else let (a, b) := break_at stop s' in (c :: a, b)
  end.

Definition strip_prefix (prefix s : jsstring) : option jsstring :=
  if bool_decide (take (length prefix) s = prefix)
  then Some (drop (length prefix) s) else None.

(** The platform's URL parser on the inputs where its result can be read
    off the input: a string without [:] has no scheme and fails; a plain
    [http://] or [https://] URL parses to its own parts.  Any other input
    is rejected here although the platform accepts many of them, so this
    parser is only applied to inputs of these two kinds. *)
Definition parse_plain (input : jsstring) : option URL :=
  if negb (existsb (N.eqb 58) input) then None
  else
    scheme_rest ←
      match strip_prefix (str "https://") input with
      | Some rest => Some (str "https://", rest)
      | None =>
          match strip_prefix (str "http://") input with
          | Some rest => Some (str "http://", rest)
          | None => None
          end
      end;
    let (host, after_host) := break_at (λ c, negb (is_lower_alpha c || (c =? 46))) scheme_rest.2 in
    let (path, after_path) := break_at (λ c, (c =? 63) || (c =? 35)) after_host in
    let (q, after_query) :=
      match after_path with
      | 63 :: rest =>
          let (q, r) := break_at (N.eqb 35) rest in (Some q, r)
      | _ => (None, after_path)
      end in
    let f :=
      match after_query with
      | 35 :: rest => Some rest
      | _ => None
      end in
    if is_plain_host host && is_plain_path path
       && is_plain_query (default [] q) && is_plain_fragment (default [] f)
    then Some {| before_query := scheme_rest.1 ++ host ++ path;
                 opaque_path := false; query := q; fragment := f |}
    else None.

(** The platform's URL parser on plain [data:] URLs: the path is opaque
    and kept as it stands, spaces before the query or the fragment
    included.  The path holds printable ASCII and does not start with [/];
    an input that ends with a space is left out, the parser would strip
    it. *)
Definition is_plain_opaque_path (path : jsstring) : bool :=
  match path with
  | 47 :: _ => false
  | _ => forallb (λ c, (32 <=? c) && (c <=? 126)) path
  end.

Definition parse_data (input : jsstring) : option URL :=
  rest ← strip_prefix (str "data:") input;
  let (path, after_path) := break_at (λ c, (c =? 63) || (c =? 35)) rest in
  let (q, after_query) :=
    match after_path with
    | 63 :: rest =>
        let (q, r) := break_at (N.eqb 35) rest in (Some q, r)
    | _ => (None, after_path)
    end in
  let f :=
    match after_query with
    | 35 :: rest => Some rest
    | _ => None
    end in
  if is_plain_opaque_path path && is_plain_query (default [] q)
     && is_plain_fragment (default [] f)
     && negb (bool_decide (last input = Some 32))
  then Some {| before_query := str "data:" ++ path;
               opaque_path := true; query := q; fragment := f |}
  else None.

(** The URL record of [data:text/plain,hi  ?q=a%20b&ref=1], a URL with an
    opaque path that ends with two spaces. *)
Definition data_hi : URL :=
  {| before_query := str "data:text/plain,hi  "; opaque_path := true;
     query := Some (str "q=a%20b&ref=1"); fragment := None |}.

End Examples.

(** Further notions, used by the properties of the last part. *)
Module Notions.
Import Js.

(** A text of white space only. *)
Definition all_whitespace (s : jsstring) : bool := forallb is_whitespace s.

(** The time slept in a trace, in milliseconds. *)
Definition total_sleep (trace : list Gemini.event) : N :=
  foldr N.add 0 (Spec.sleeps trace).

(** The state of a panel after the events of a handler. *)
Definition panel_after (events : list Panels.panel_event)
    : Panels.panel_state :=
  fold_left Panels.apply_event events Panels.panel_initial.

(** What a handler passes to [setResult] for a completion of the
    invoker. *)
Definition shown (engine_text : thrown → jsstring)
    (completion : completion value) : value :=
  match completion with
  | Normal content => content
  | Throw error =>
      VString (str "Error: " ++ Panels.error_message engine_text error)
  end.

(** The message an error document of the endpoint carries: the string at
    [error.message] when it is there and not empty, the default message
    when [error] or [message] is missing. *)
Inductive endpoint_message : value → jsstring → Prop :=
| message_given top err m :
    top !! str "error" = Some (VObject err) →
    err !! str "message" = Some (VString m) →
    m ≠ [] →
    endpoint_message (VObject top) m
| message_missing top err :
    top !! str "error" = Some (VObject err) →
    err !! str "message" = None →
    endpoint_message (VObject top) (str "API Request Failed")
| error_missing top :
    top !! str "error" = None →
    endpoint_message (VObject top) (str "API Request Failed").

(** A byte sequence without the code unit [sep]. *)
Definition without (sep : N) (x : list N) : bool :=
  forallb (λ b, negb (b =? sep)) x.

(** The calls of the invoker among the events of a handler. *)
Definition calls (events : list Panels.panel_event) : list Gemini.event :=
  omap (λ e, match e with Panels.Call c => Some c | Panels.Update _ => None end)
       events.

(** The code units a serialized parameter list is made of: those outside
    the urlencoded percent-encode set, and [+], [%], [=] and [&]. *)
Definition is_query_char (c : N) : bool :=
  Url.is_ascii_alphanumeric c || (c =? 42) || (c =? 45) || (c =? 46)
  || (c =? 95) || (c =? 43) || (c =? 37) || (c =? 61) || (c =? 38).

(** The marker of a line that is no URL. *)
Definition marker : jsstring := str " (Invalid URL)".

(** [#] and the fragment of a URL, when it has one. *)
Definition fragment_part (u : Url.URL) : jsstring :=
  match Url.fragment u with
  | Some f => 35 :: f
  | None => []
  end.

(** The state of the application after a sequence of clicks. *)
Definition app_after (actions : list App.action) : App.app_state :=
  fold_left App.step actions App.app_initial.

(** An endpoint that answers every call with the status 400 and the
    document [data]. *)
Definition always_400 (data : value) (k : nat) : Gemini.fetch_outcome :=
  Gemini.FetchResolves {| Gemini.status := 400; Gemini.body := Gemini.BodyJson data |}.

End Notions.

(* ================================================================== *)
(** * Part III: theorems *)
(* ================================================================== *)

Import Js.

Section GenerateContent.
Import Gemini Spec.

Variable env : nat → fetch_outcome.
Variable request : event.

Lemma retryable_throws o :
  retryable o = true → try_block o = Throw (underlying_error o).
Proof.
  destruct o as [reason|r]; simpl; [done|].
  intros H. unfold ok.
  destruct (status r =? 429) eqn:E429.
  - apply N.eqb_eq in E429. rewrite E429. reflexivity.
  - simpl in H. apply andb_prop in H as [H5 H6].
    apply N.leb_le in H5, H6.
    replace (status r <=? 299) with false by (symmetry; apply N.leb_gt; lia).
    rewrite andb_false_r. simpl.
    replace (500 <=? status r) with true by (symmetry; apply N.leb_le; lia).
    reflexivity.
Qed.

Lemma terminal_throws o :
  terminal o = true → ∃ e, try_block o = Throw e.
Proof.
  destruct o as [reason|r]; simpl; [done|].
  intros H. apply andb_prop in H as [Hok Hre].
  apply negb_true_iff in Hok, Hre. unfold ok. rewrite Hok. simpl.
  destruct (status r =? 429) eqn:E429; simpl; [eauto|].
  destruct (500 <=? status r) eqn:E500; simpl; [eauto|].
  destruct (json r) as [errorData|e]; simpl; [|eauto].
  destruct (error_of_body errorData); simpl; eauto.
Qed.

(** One failed attempt before the last index: the loop records the call,
    sleeps for [delays[i]] and goes on. *)
Lemma loop_retry n i trace e d :
  try_block (env i) = Throw e →
  delays !! i = Some d →
  loop env request (S n) i trace
  = loop env request n (S i) (trace ++ [request; Sleep d]).
Proof.
  intros Ht Hd. cbn [loop]. rewrite Ht.
  apply lookup_lt_Some in Hd as Hlt.
  rewrite bool_decide_eq_false_2 by lia.
  rewrite nth_lookup, Hd. cbn [default]. by rewrite <- app_assoc.
Qed.

(** [k] failed attempts from index [i] on, all before the last index. *)
Lemma loop_retries k : ∀ n i trace,
  (i + k ≤ length delays)%nat →
  (∀ j, (j < k)%nat → ∃ e, try_block (env (i + j)) = Throw e) →
  loop env request (k + n) i trace
  = loop env request n (i + k)
      (trace ++ retries request (take k (drop i delays))).
Proof.
  induction k as [|k IH]; intros n i trace Hk Hfail.
  - simpl. by rewrite Nat.add_0_r, app_nil_r.
  - destruct (Hfail 0%nat) as [e He]; [lia|]. rewrite Nat.add_0_r in He.
    destruct (lookup_lt_is_Some_2 delays i) as [d Hd]; [lia|].
    change (S k + n)%nat with (S (k + n)).
    rewrite (loop_retry _ _ _ e d) by done.
    rewrite IH.
    + rewrite (drop_S _ _ _ Hd). simpl.
      rewrite <- app_assoc. simpl. f_equal. lia.
    + lia.
    + intros j Hj. replace (S i + j)%nat with (i + S j)%nat by lia.
      apply Hfail. lia.
Qed.

Lemma attempts_schedule u b ds :
  attempts (schedule (Fetch u b) ds) = S (length ds).
Proof.
  unfold attempts, schedule.
  induction ds as [|d ds IH]; [done|].
  cbn in *. by f_equal.
Qed.

Lemma sleeps_schedule u b ds :
  sleeps (schedule (Fetch u b) ds) = ds.
Proof.
  unfold sleeps, schedule.
  induction ds as [|d ds IH]; [done|].
  cbn in *. by f_equal.
Qed.

(** A run only adds to its trace, and an iteration starts with the call. *)
Lemma loop_trace_grows n : ∀ i trace,
  ∃ rest, (loop env request n i trace).2 = trace ++ rest.
Proof.
  induction n as [|n IH]; intros i trace; cbn [loop].
  - exists []. by rewrite app_nil_r.
  - destruct (try_block (env i)); [by exists [request]|].
    case_bool_decide; [by exists [request]|].
    destruct (IH (S i) ((trace ++ [request]) ++ [Sleep (nth i delays 0)]))
      as [rest Hrest].
    exists (request :: Sleep (nth i delays 0) :: rest).
    rewrite Hrest, <- !app_assoc. reflexivity.
Qed.

Lemma loop_starts_with_call n i trace :
  ∃ rest, (loop env request (S n) i trace).2 = trace ++ request :: rest.
Proof.
  cbn [loop].
  destruct (try_block (env i)); [by exists []|].
  case_bool_decide; [by exists []|].
  destruct (loop_trace_grows n (S i)
              ((trace ++ [request]) ++ [Sleep (nth i delays 0)]))
    as [rest Hrest].
  exists (Sleep (nth i delays 0) :: rest).
  rewrite Hrest, <- !app_assoc. reflexivity.
Qed.

(** [k] retryable outcomes, then an attempt whose [try] block completes. *)
Lemma loop_retryable_then_normal k v :
  (k ≤ 5)%nat →
  (∀ i, (i < k)%nat → retryable (env i) = true) →
  try_block (env k) = Normal v →
  loop env request (S (length delays)) 0 []
  = (Normal v, schedule request (take k delays)).
Proof.
  intros Hk Hretry Hv.
  replace (S (length delays)) with (k + S (5 - k))%nat by (simpl; lia).
  rewrite loop_retries.
  - change (0 + k)%nat with k. cbn [loop drop]. rewrite Hv. reflexivity.
  - simpl. lia.
  - intros j Hj. eexists. apply retryable_throws, Hretry. lia.
Qed.

End GenerateContent.

Section GenerateContentClaims.
Import Gemini Spec.

Variable env : nat → fetch_outcome.
Variables prompt systemInstruction : jsstring.

(** C1 (the code departs from it).  A terminal-classified first outcome,
    such as HTTP 400, does not end the invocation: the error is thrown
    inside the [try] block, the [catch] clause treats it like any other,
    and the invoker sleeps for 1000 ms and calls the endpoint again. *)
Theorem generateContent_terminal_first_is_retried :
  terminal (env 0%nat) = true →
  ∃ c rest,
    generateContent env prompt systemInstruction
    = (c, request prompt systemInstruction :: Sleep 1000
          :: request prompt systemInstruction :: rest).
Proof.
  intros Hterm. destruct (terminal_throws _ Hterm) as [e He].
  unfold generateContent.
  rewrite (loop_retry _ _ _ _ _ e 1000) by done.
  destruct (loop_starts_with_call env (request prompt systemInstruction) 4 1
              ([] ++ [request prompt systemInstruction; Sleep 1000]))
    as [rest Hrest].
  change (length delays) with 5%nat.
  destruct (loop _ _ 5 1 _) as [c trace]. simpl in Hrest. subst trace.
  by exists c, rest.
Qed.

(** C2, amended.  After [k ≤ 5] retryable outcomes, a transport success
    whose body reads as a JSON document other than [null] ends the
    invocation: [k + 1] attempts, [k] sleeps for [delays[0..k-1]] in that
    order, and the value extracted from the document is returned. *)
Theorem generateContent_retry_then_success (k : nat) (data : value) :
  (k ≤ 5)%nat →
  (∀ i, (i < k)%nat → retryable (env i) = true) →
  success_with data (env k) →
  is_nullish data = false →
  ∃ v trace,
    extract_text data = Normal v
    ∧ generateContent env prompt systemInstruction = (Normal v, trace)
    ∧ trace = schedule (request prompt systemInstruction) (take k delays)
    ∧ attempts trace = S k
    ∧ sleeps trace = take k delays.
Proof.
  intros Hk Hretry (r & Hr & Hok & Hbody) Hdata.
  assert (∃ v, extract_text data = Normal v) as [v Hv].
  { unfold extract_text, member. rewrite Hdata. simpl. eauto. }
  exists v, (schedule (request prompt systemInstruction) (take k delays)).
  split; [done|]. split; [|split; [done|split]].
  - apply loop_retryable_then_normal; [done..|].
    rewrite Hr in *. simpl in *. unfold ok, json. rewrite Hok, Hbody. done.
  - unfold request. rewrite attempts_schedule, length_take.
    change (length delays) with 5%nat. lia.
  - unfold request. apply sleeps_schedule.
Qed.

(** C3.  Six retryable outcomes in a row: six attempts, the five sleeps of
    [delays] in order, and the error of the sixth attempt is thrown. *)
Theorem generateContent_retries_exhausted :
  (∀ i, (i < 6)%nat → retryable (env i) = true) →
  ∃ trace,
    generateContent env prompt systemInstruction
    = (Throw (underlying_error (env 5%nat)), trace)
    ∧ trace = schedule (request prompt systemInstruction) delays
    ∧ attempts trace = 6%nat
    ∧ sleeps trace = delays.
Proof.
  intros Hretry.
  exists (schedule (request prompt systemInstruction) delays).
  split; [|split; [done|split]].
  - unfold generateContent.
    rewrite (loop_retries env _ 5 1 0 []).
    + cbn [loop Nat.add]. rewrite (retryable_throws (env 5%nat)) by (apply Hretry; lia).
      reflexivity.
    + simpl. lia.
    + intros j Hj. eexists. apply retryable_throws, Hretry. simpl. lia.
  - unfold request. by rewrite attempts_schedule.
  - unfold request. apply sleeps_schedule.
Qed.

(** What [extract_text] yields on a body of the documented shape. *)
Lemma extract_text_has_text data text :
  has_text data text →
  extract_text data = Normal (if ToBoolean text then text else fallback).
Proof.
  intros (top & candidate & content & part & cs & ps
          & -> & Hc & Hct & Hp & Ht).
  unfold extract_text, member, opt_member. simpl.
  rewrite Hc. simpl.
  change (decimal (N.of_nat 0)) with (str "0").
  rewrite Hct. simpl. rewrite Hp. simpl. rewrite Ht. simpl.
  reflexivity.
Qed.

Lemma extract_text_path_absent data :
  path_absent data → extract_text data = Normal fallback.
Proof.
  unfold extract_text, member, opt_member.
  destruct 1; simpl;
    repeat match goal with H : _ !! _ = _ |- _ => rewrite H; clear H; simpl end;
    reflexivity.
Qed.

Lemma success_with_try_block data o :
  success_with data o → try_block o = extract_text data.
Proof.
  intros (r & -> & Hok & Hbody). simpl in *.
  unfold ok, json. by rewrite Hok, Hbody.
Qed.

(** C4, amended.  On a transport success with a body of the documented
    shape the invoker returns the first candidate's first part's text when
    that text is truthy, and the fallback string, as a success, when the
    text is falsy or the path is absent. *)
Theorem generateContent_success_text_or_fallback (k : nat) (data v : value) :
  (k ≤ 5)%nat →
  (∀ i, (i < k)%nat → retryable (env i) = true) →
  success_with data (env k) →
  answer data v →
  generateContent env prompt systemInstruction
  = (Normal v, schedule (request prompt systemInstruction) (take k delays)).
Proof.
  intros Hk Hretry Hok Hanswer. apply loop_retryable_then_normal; [done..|].
  rewrite (success_with_try_block data) by done.
  destruct Hanswer as [text Htext Htruthy|text Htext Hfalsy|Habsent].
  - rewrite (extract_text_has_text data text) by done. by rewrite Htruthy.
  - rewrite (extract_text_has_text data text) by done. by rewrite Hfalsy.
  - by apply extract_text_path_absent.
Qed.

(** C10.  A text field holding the empty string counts as no text: the
    invoker returns the fallback string. *)
Theorem generateContent_empty_text_gives_fallback (k : nat) (data : value) :
  (k ≤ 5)%nat →
  (∀ i, (i < k)%nat → retryable (env i) = true) →
  success_with data (env k) →
  has_text data (VString (str "")) →
  generateContent env prompt systemInstruction
  = (Normal (VString (str "No response generated.")),
     schedule (request prompt systemInstruction) (take k delays)).
Proof.
  intros Hk Hretry Hok Htext. apply loop_retryable_then_normal; [done..|].
  rewrite (success_with_try_block data) by done.
  by rewrite (extract_text_has_text data (VString (str ""))).
Qed.

End GenerateContentClaims.

Section Strings.
Import Scan WordCounter Spec.

Lemma line_feed_is_whitespace c : (c =? 10) = true → is_whitespace c = true.
Proof. intros ->%N.eqb_eq. reflexivity. Qed.

Lemma length_trim_start s : (length (trim_start s) ≤ length s)%nat.
Proof.
  induction s as [|c s IH]; simpl; [lia|].
  destruct (is_whitespace c); simpl; lia.
Qed.

Lemma trim_start_head c s t :
  trim_start s = c :: t → is_whitespace c = false.
Proof.
  induction s as [|d s IH]; simpl; [done|].
  destruct (is_whitespace d) eqn:E; [done|]. by intros [= <- _].
Qed.

Lemma ends_clean_tail c s : ends_clean (c :: s) = true → ends_clean s = true.
Proof. destruct s; simpl; [done|]. done. Qed.

Lemma ends_clean_whitespace c s :
  ends_clean (c :: s) = true → is_whitespace c = true → s ≠ [].
Proof. destruct s; simpl; [|done]. by intros ->%negb_true_iff. Qed.

Lemma trim_end_ends_clean s : ends_clean (trim_end s) = true.
Proof.
  induction s as [|c s IH]; simpl; [done|].
  destruct (trim_end s) as [|d t] eqn:E.
  - destruct (is_whitespace c) eqn:Ec; simpl; [done|]. by rewrite Ec.
  - exact IH.
Qed.

Lemma trim_end_head c s :
  is_whitespace c = false → ∃ t, trim_end (c :: s) = c :: t.
Proof.
  intros Hc. simpl. destruct (trim_end s); [|eauto]. rewrite Hc. eauto.
Qed.

(** A trimmed text is empty or starts and ends with something else than
    white space. *)
Lemma trim_shape s :
  ends_clean (trim s) = true
  ∧ ∀ c t, trim s = c :: t → is_whitespace c = false.
Proof.
  split; [apply trim_end_ends_clean|].
  unfold trim. intros c t.
  destruct (trim_start s) as [|d u] eqn:E; [done|].
  pose proof (trim_start_head _ _ _ E) as Hd.
  destruct (trim_end_head d u Hd) as [t' ->]. by intros [= <- _].
Qed.

Lemma match_star_whitespace s :
  match_star WhiteSpaceClass Some s = Some (trim_start s).
Proof.
  induction s as [|c s IH]; simpl; [done|].
  destruct (is_whitespace c); [by rewrite IH|done].
Qed.

Lemma exec_whitespace_run c s :
  exec whitespace_run (c :: s)
  = if is_whitespace c then Some (trim_start s) else None.
Proof.
  unfold exec, whitespace_run. simpl.
  destruct (is_whitespace c); [apply match_star_whitespace|done].
Qed.

Lemma runs_trim_start s : runs true s = runs false (trim_start s).
Proof.
  induction s as [|c s IH]; simpl; [done|].
  destruct (is_whitespace c) eqn:E; simpl; [done|]. by rewrite E.
Qed.

(** [split(/\s+/)] yields one piece more than there are white-space runs. *)
Lemma length_split_from_whitespace_run fuel : ∀ piece s,
  (length s < fuel)%nat →
  length (split_from whitespace_run fuel piece s) = S (runs false s).
Proof.
  induction fuel as [|fuel IH]; intros piece s Hfuel; [lia|].
  destruct s as [|c s]; [done|].
  cbn [split_from]. rewrite exec_whitespace_run. simpl in Hfuel.
  cbn [runs]. destruct (is_whitespace c) eqn:E.
  - pose proof (length_trim_start s) as Hle.
    replace (length (trim_start s) =? length (c :: s))%nat with false
      by (symmetry; apply Nat.eqb_neq; simpl; lia).
    rewrite andb_false_r. cbn [length].
    rewrite IH by lia. by rewrite runs_trim_start.
  - rewrite IH by lia. done.
Qed.

Lemma length_tokens_from token s :
  length (tokens_from token s)
  = count_tokens (negb (bool_decide (token = []))) s.
Proof.
  revert token. induction s as [|c s IH]; intros token; simpl.
  - by case_bool_decide.
  - destruct (is_whitespace c).
    + case_bool_decide; simpl; rewrite IH; done.
    + rewrite IH. rewrite bool_decide_eq_false_2; [done|].
      by destruct token.
Qed.

(** On a text that does not end with white space, tokens and white-space
    runs alternate. *)
Lemma count_tokens_runs s :
  ends_clean s = true →
  count_tokens true s = S (runs false s)
  ∧ (s ≠ [] → count_tokens false s = S (runs true s)).
Proof.
  induction s as [|c s IH]; intros Hend; [done|].
  pose proof (ends_clean_tail _ _ Hend) as Htail.
  destruct (IH Htail) as [IHt IHf].
  cbn [count_tokens runs]. destruct (is_whitespace c) eqn:E.
  - pose proof (ends_clean_whitespace _ _ Hend E) as Hne.
    rewrite (IHf Hne). split; [done|]. intros _. done.
  - rewrite IHt. done.
Qed.

(** The rest of [/\n\s*\n/] after its first line feed: the longest
    white-space prefix that a line feed follows. *)
Lemma match_star_blank_line s :
  match match_star WhiteSpaceClass (λ s', match_at (One (Lit 10)) s' Some) s with
  | Some rest =>
      (length rest < length s)%nat
      ∧ separators OneBreak s = S (separators NoBreak rest)
      ∧ separators Separated s = separators NoBreak rest
  | None =>
      separators OneBreak s = separators NoBreak s
      ∧ separators Separated s = separators NoBreak s
  end.
Proof.
  induction s as [|c s IH]; [done|].
  cbn [match_star atom_matches].
  destruct (is_whitespace c) eqn:Ews.
  - destruct (match_star _ _ s) as [rest|].
    + destruct IH as (Hlen & H1 & H2). cbn [separators length].
      destruct (c =? 10); rewrite ?Ews, ?H1, ?H2; (split; [lia|done]).
    + destruct IH as (H1 & H2). cbn [match_at atom_matches separators length].
      destruct (c =? 10); rewrite ?Ews, ?H1, ?H2; [|done].
      split; [lia|done].
  - cbn [match_at atom_matches separators].
    destruct (c =? 10) eqn:Elf.
    + by rewrite (line_feed_is_whitespace c Elf) in Ews.
    + by rewrite Ews.
Qed.

(** [split(/\n\s*\n/)] yields one piece more than there are white-space
    runs with two line feeds. *)
Lemma length_split_from_blank_line fuel : ∀ piece s,
  (length s < fuel)%nat →
  length (split_from blank_line fuel piece s) = S (separators NoBreak s).
Proof.
  induction fuel as [|fuel IH]; intros piece s Hfuel; [lia|].
  destruct s as [|c s]; [done|].
  cbn [split_from]. simpl in Hfuel.
  unfold exec, blank_line. cbn [match_at atom_matches separators].
  destruct (c =? 10) eqn:Elf.
  - pose proof (match_star_blank_line s) as Hstar.
    destruct (match_star _ _ s) as [rest|].
    + destruct Hstar as (Hlen & H1 & _).
      replace (length rest =? length (c :: s))%nat with false
        by (symmetry; apply Nat.eqb_neq; simpl; lia).
      rewrite andb_false_r. cbn [length].
      rewrite IH by lia. by rewrite H1.
    + destruct Hstar as (H1 & _). rewrite IH by lia. by rewrite H1.
  - rewrite IH by lia. by destruct (is_whitespace c).
Qed.

Lemma is_blank_snoc line c :
  is_blank (line ++ [c]) = is_blank line && is_whitespace c.
Proof.
  unfold is_blank. rewrite forallb_app. simpl. by rewrite andb_true_r.
Qed.

Lemma count_blocks_split_at in_block line s :
  count_blocks in_block (split_at 10 line s)
  = scan_blocks in_block (is_blank line) s.
Proof.
  revert in_block line. induction s as [|c s IH]; intros in_block line.
  - simpl. by destruct (is_blank line), in_block.
  - cbn [split_at scan_blocks]. destruct (c =? 10) eqn:Elf.
    + cbn [count_blocks]. destruct (is_blank line); by rewrite IH.
    + rewrite IH, is_blank_snoc.
      destruct (is_whitespace c); [by rewrite andb_true_r|].
      by rewrite andb_false_r.
Qed.

(** On a text that does not end with white space, reading blocks line by
    line and reading white-space runs agree in every state. *)
Lemma scan_blocks_separators s :
  ends_clean s = true →
  scan_blocks true false s = separators NoBreak s
  ∧ scan_blocks true true s = separators OneBreak s
  ∧ (s ≠ [] → scan_blocks false true s = S (separators Separated s))
  ∧ scan_blocks false false s = S (separators NoBreak s).
Proof.
  induction s as [|c s IH]; intros Hend; [done|].
  pose proof (ends_clean_tail _ _ Hend) as Htail.
  destruct (IH Htail) as (IHa & IHb & IHc & IHd).
  cbn [scan_blocks separators]. destruct (c =? 10) eqn:Elf.
  - pose proof (ends_clean_whitespace _ _ Hend
                  (line_feed_is_whitespace c Elf)) as Hne.
    rewrite IHb, (IHc Hne). simpl. done.
  - destruct (is_whitespace c) eqn:Ews.
    + pose proof (ends_clean_whitespace _ _ Hend Ews) as Hne.
      rewrite IHa, IHb, (IHc Hne), IHd. done.
    + rewrite IHa, IHd. done.
Qed.

End Strings.

Section WordCounterClaims.
Import Scan WordCounter Spec.

(** C7.  The counters of the word counter: words are the tokens of the
    trimmed text, chars its code units, charsNoSpace its code units that are
    not white space, paragraphs the blank-line-separated blocks of the
    trimmed text. *)
Theorem stats_counts (text : jsstring) :
  words (stats text) = N.of_nat (length (tokens (trim text)))
  ∧ chars (stats text) = N.of_nat (length text)
  ∧ charsNoSpace (stats text) = N.of_nat (count_non_whitespace text)
  ∧ paragraphs (stats text) = N.of_nat (blocks (trim text))
  ∧ (trim text = [] → words (stats text) = 0 ∧ paragraphs (stats text) = 0)
  ∧ words (stats (str "hello world")) = 2
  ∧ chars (stats (str "hello world")) = 11
  ∧ charsNoSpace (stats (str "hello world")) = 10
  ∧ paragraphs (stats (str "hello world")) = 1
  ∧ words (stats (str "")) = 0
  ∧ paragraphs (stats (str "")) = 0.
Proof.
  destruct (trim_shape text) as [Hend Hhead].
  split; [|split; [reflexivity|split; [|split; [|split]]]].
  - (* words *)
    cbn [stats words]. case_bool_decide as Hempty; [by rewrite Hempty|].
    f_equal. unfold tokens. rewrite length_tokens_from. simpl.
    destruct (trim text) as [|c t] eqn:Et; [done|].
    unfold split. rewrite length_split_from_whitespace_run by lia.
    cbn [count_tokens runs]. rewrite (Hhead c t eq_refl).
    by destruct (count_tokens_runs t (ends_clean_tail _ _ Hend)) as [-> _].
  - (* charsNoSpace *)
    cbn [stats charsNoSpace]. f_equal. unfold remove_all.
    clear. induction text as [|c text IH]; [done|].
    simpl in *. destruct (is_whitespace c); simpl; congruence.
  - (* paragraphs *)
    cbn [stats paragraphs]. case_bool_decide as Hempty; [by rewrite Hempty|].
    f_equal. unfold blocks, split_string. rewrite count_blocks_split_at.
    destruct (trim text) as [|c t] eqn:Et; [done|].
    unfold split. rewrite length_split_from_blank_line by lia.
    destruct (scan_blocks_separators t (ends_clean_tail _ _ Hend))
      as (_ & _ & _ & Hd).
    change (is_blank []) with true. cbn [scan_blocks separators].
    rewrite (Hhead c t eq_refl).
    replace (c =? 10) with false; [by rewrite Hd|].
    destruct (c =? 10) eqn:Elf; [|done].
    apply line_feed_is_whitespace in Elf.
    by rewrite (Hhead c t eq_refl) in Elf.
  - intros Hempty. cbn [stats words paragraphs]. by rewrite Hempty.
  - repeat split; vm_compute; reflexivity.
Qed.

(** The reading time of a text whose trimmed form is not empty is the
    ceiling of its word count over 200. *)
Lemma readTime_of_words (text : jsstring) :
  trim text ≠ [] →
  readTime (stats text) = decimal (ceil_div_200 (words (stats text))) ++ str " min".
Proof.
  intros Hne. cbn [stats readTime words].
  by rewrite bool_decide_eq_false_2.
Qed.

(** C8 (the code departs from it).  A text that is empty once trimmed has
    no words, yet its reading time is computed from the one empty piece
    that [split] returns: "1 min", not "0 min". *)
Theorem readTime_of_blank_text (text : jsstring) :
  trim text = [] →
  words (stats text) = 0
  ∧ readTime (stats text) = str "1 min"
  ∧ decimal (ceil_div_200 (words (stats text))) ++ str " min" = str "0 min".
Proof.
  intros Hempty. cbn [stats readTime words]. rewrite Hempty. done.
Qed.

End WordCounterClaims.

Section UrlLemmas.
Import Url UrlTrimmer Spec Scan.

Variable e : engine.

Lemma searchParams_delete_updated name o :
  searchParams_delete e name o
  = updated e o (List.filter (λ t, negb (bool_decide (t.1 = name)))
                             (searchParams o)).
Proof. reflexivity. Qed.

Lemma filter_filter_names (names : list jsstring) name
    (params : list (list N * list N)) :
  List.filter (λ t, negb (bool_decide (t.1 ∈ names)))
    (List.filter (λ t, negb (bool_decide (t.1 = name))) params)
  = List.filter (λ t, negb (bool_decide (t.1 ∈ name :: names))) params.
Proof.
  induction params as [|t params IH]; [done|].
  simpl. destruct (decide (t.1 = name)) as [Heq|Hne].
  - rewrite (bool_decide_eq_true_2 (t.1 = name)) by done. simpl.
    rewrite (bool_decide_eq_true_2 (t.1 ∈ name :: names)); [done|].
    rewrite Heq. left.
  - rewrite (bool_decide_eq_false_2 (t.1 = name)) by done. simpl.
    rewrite IH. destruct (decide (t.1 ∈ names)) as [Hin|Hnin].
    + rewrite !bool_decide_eq_true_2; [done| by right |done].
    + rewrite !bool_decide_eq_false_2; [done| |done].
      by intros [?|?]%elem_of_cons.
Qed.

Lemma urlencoded_serialize_nil_iff params :
  urlencoded_serialize params = [] ↔ params = [].
Proof.
  split; [|by intros ->].
  destruct params as [|t [|t' params]]; [done|..]; unfold urlencoded_serialize;
    simpl; intros H; by destruct (urlencoded_encode t.1).
Qed.

Lemma strip_trailing_spaces_idempotent s :
  strip_trailing_spaces (strip_trailing_spaces s) = strip_trailing_spaces s.
Proof.
  induction s as [|c s IH]; [done|]. cbn [strip_trailing_spaces].
  destruct (strip_trailing_spaces s) as [|d t] eqn:Es.
  - destruct (c =? 32) eqn:Ec; [done|]. cbn. by rewrite Ec.
  - change (strip_trailing_spaces (c :: d :: t))
      with (match strip_trailing_spaces (d :: t) with
            | [] => if c =? 32 then [] else [c]
            | t' => c :: t'
            end).
    by rewrite IH.
Qed.

(** The update steps for [params] make the URL [with_parameters]
    describes. *)
Lemma update_steps_with_parameters u params :
  update_steps e params u = with_parameters e u params.
Proof.
  unfold update_steps, with_parameters, before_cleaned,
    potentially_strip_trailing_spaces, set_query.
  destruct params as [|t params].
  - rewrite bool_decide_eq_true_2 by done. cbn [opaque_path fragment query].
    destruct u as [b [|] q [f|]]; by destruct e.
  - rewrite bool_decide_eq_false_2 by by rewrite urlencoded_serialize_nil_iff.
    cbn [opaque_path fragment query before_query].
    destruct u as [b [|] q [f|]]; by destruct e.
Qed.

(** Running the update steps for a list and then for a part of it gives
    what the steps for the part give. *)
Lemma update_steps_twice u params kept :
  (params = [] → kept = []) →
  update_steps e kept (update_steps e params u) = update_steps e kept u.
Proof.
  intros Hpart. rewrite !update_steps_with_parameters.
  unfold with_parameters, before_cleaned.
  cbn [opaque_path fragment before_query]. f_equal.
  destruct (opaque_path u), (fragment u); try done.
  destruct params as [|t params].
  - rewrite Hpart by done. destruct e; by rewrite strip_trailing_spaces_idempotent.
  - destruct e, kept; try done; by rewrite strip_trailing_spaces_idempotent.
Qed.

Lemma updated_updated o params kept :
  (params = [] → kept = []) →
  updated e (updated e o params) kept = updated e o kept.
Proof.
  intros Hpart. unfold updated. cbn [url]. by rewrite update_steps_twice.
Qed.

Lemma filter_nil_of_nil (p : list N * list N → bool) params :
  params = [] → List.filter p params = [].
Proof. by intros ->. Qed.

(** Deleting the names of a list one after the other keeps the tuples
    named by none of them. *)
Lemma fold_delete_updated (names : list jsstring) : ∀ o params,
  fold_left (λ o param, searchParams_delete e param o) names
            (updated e o params)
  = updated e o (List.filter (λ t, negb (bool_decide (t.1 ∈ names))) params).
Proof.
  induction names as [|name names IH]; intros o params.
  - simpl. f_equal. induction params as [|t params IHp]; [done|].
    simpl in *. by rewrite <- IHp.
  - cbn [fold_left]. rewrite searchParams_delete_updated.
    change (searchParams (updated e o params)) with params.
    rewrite updated_updated by apply filter_nil_of_nil.
    rewrite IH. by rewrite filter_filter_names.
Qed.

Lemma fold_delete (name : jsstring) (names : list jsstring) o :
  fold_left (λ o param, searchParams_delete e param o) (name :: names) o
  = updated e o (List.filter (λ t, negb (bool_decide (t.1 ∈ name :: names)))
                             (searchParams o)).
Proof.
  cbn [fold_left]. rewrite searchParams_delete_updated.
  rewrite fold_delete_updated. by rewrite filter_filter_names.
Qed.

Lemma paramsToRemove_tracked : paramsToRemove = tracked.
Proof. reflexivity. Qed.

Lemma updated_url o params :
  url (updated e o params) = with_parameters e (url o) params.
Proof. apply update_steps_with_parameters. Qed.

(** A line that holds a URL: the tracking parameters are deleted and the
    URL is serialized with what is left. *)
Lemma cleanLine_valid parse line u :
  trim line ≠ [] →
  parse (trim line) = Some u →
  cleanLine e parse line = URL_serialize (cleaned e u).
Proof.
  intros Hne Hparse. unfold cleanLine, new_URL.
  rewrite bool_decide_eq_false_2 by done. rewrite Hparse.
  cbn [mbind option_bind]. unfold paramsToRemove.
  rewrite fold_delete. unfold toString.
  rewrite updated_url. reflexivity.
Qed.

End UrlLemmas.


Section Utf8.
Import Url Spec Scan.

Local Ltac Zify.zify_post_hook ::= Z.to_euclidean_division_equations.

(** Shifts and masks as quotients and remainders. *)
Lemma shiftr_6 c : N.shiftr c 6 = c / 64.
Proof. apply (N.shiftr_div_pow2 c 6). Qed.
Lemma shiftr_12 c : N.shiftr c 12 = c / 4096.
Proof. apply (N.shiftr_div_pow2 c 12). Qed.
Lemma shiftr_18 c : N.shiftr c 18 = c / 262144.
Proof. apply (N.shiftr_div_pow2 c 18). Qed.
Lemma shiftr_4 c : N.shiftr c 4 = c / 16.
Proof. apply (N.shiftr_div_pow2 c 4). Qed.
Lemma land_63 c : N.land c 63 = c mod 64.
Proof. apply (N.land_ones c 6). Qed.
Lemma land_31 c : N.land c 31 = c mod 32.
Proof. apply (N.land_ones c 5). Qed.
Lemma land_15 c : N.land c 15 = c mod 16.
Proof. apply (N.land_ones c 4). Qed.
Lemma land_7 c : N.land c 7 = c mod 8.
Proof. apply (N.land_ones c 3). Qed.

Lemma lor_shiftl_6 x r : r < 64 → N.lor (N.shiftl x 6) r = 64 * x + r.
Proof.
  intros Hr. rewrite N.shiftl_mul_pow2.
  assert (N.land (x * 2 ^ 6) r = 0) as Hdisj.
  { apply N.bits_inj_0; intros n; rewrite N.land_spec.
    destruct (N.lt_ge_cases n 6).
    - by rewrite N.mul_pow2_bits_low.
    - rewrite (N.bits_above_log2 r n); [apply andb_false_r|].
      destruct (N.eq_dec r 0) as [->|]; [simpl; lia|].
      apply N.log2_lt_pow2; [lia|]. eapply N.lt_le_trans; [eassumption|].
      change 64 with (2 ^ 6). apply N.pow_le_mono_r; lia. }
  rewrite <- N.lxor_lor, <- N.add_nocarry_lxor by assumption.
  change (2 ^ 6) with 64. lia.
Qed.

Lemma lor_128 r : r < 64 → N.lor 128 r = 128 + r.
Proof. intros Hr. change 128 with (N.shiftl 2 6) at 1. by rewrite lor_shiftl_6. Qed.

Lemma utf8_encode_code_point_arith c :
  utf8_encode_code_point c
  = if c <? 128 then [c]
    else if c <? 2048 then [c / 64 + 192; 128 + c mod 64]
    else if c <? 65536 then
      [c / 4096 + 224; 128 + (c / 64) mod 64; 128 + c mod 64]
    else
      [c / 262144 + 240; 128 + (c / 4096) mod 64; 128 + (c / 64) mod 64;
       128 + c mod 64].
Proof.
  unfold utf8_encode_code_point.
  rewrite shiftr_6, shiftr_12, shiftr_18, !land_63.
  rewrite !lor_128 by lia. reflexivity.
Qed.

(** The handler between two code points, by kind of byte. *)
Lemma handler_ascii b : b <= 127 → handler initial b = Emit b initial.
Proof.
  intros Hb. unfold handler. simpl.
  by replace (b <=? 127) with true by (symmetry; apply N.leb_le; lia).
Qed.

Lemma handler_lead b :
  128 <= b →
  handler initial b
  = if (194 <=? b) && (b <=? 223) then
      Continue {| code_point := b mod 32; bytes_seen := 0; bytes_needed := 1;
                  lower_boundary := 128; upper_boundary := 191 |}
    else if (224 <=? b) && (b <=? 239) then
      Continue {| code_point := b mod 16; bytes_seen := 0; bytes_needed := 2;
                  lower_boundary := if b =? 224 then 160 else 128;
                  upper_boundary := if b =? 237 then 159 else 191 |}
    else if (240 <=? b) && (b <=? 244) then
      Continue {| code_point := b mod 8; bytes_seen := 0; bytes_needed := 3;
                  lower_boundary := if b =? 240 then 144 else 128;
                  upper_boundary := if b =? 244 then 143 else 191 |}
    else Error initial false.
Proof.
  intros Hb. unfold handler. simpl.
  replace (b <=? 127) with false by (symmetry; apply N.leb_gt; lia).
  by rewrite land_31, land_15, land_7.
Qed.

(** The handler inside a code point. *)
Lemma handler_continuation d b :
  bytes_needed d ≠ 0 →
  handler d b
  = if (lower_boundary d <=? b) && (b <=? upper_boundary d) then
      if bytes_seen d + 1 =? bytes_needed d then
        Emit (64 * code_point d + b mod 64) initial
      else
        Continue {| code_point := 64 * code_point d + b mod 64;
                    bytes_seen := bytes_seen d + 1;
                    bytes_needed := bytes_needed d;
                    lower_boundary := 128; upper_boundary := 191 |}
    else Error initial true.
Proof.
  intros Hn. unfold handler.
  replace (bytes_needed d =? 0) with false by (symmetry; by apply N.eqb_neq).
  rewrite land_63, lor_shiftl_6 by lia.
  destruct ((lower_boundary d <=? b) && (b <=? upper_boundary d)); simpl; [|done].
  by destruct (bytes_seen d + 1 =? bytes_needed d).
Qed.

(** Settle the comparisons of the goal that arithmetic decides. *)
Ltac settle_comparisons :=
  repeat match goal with
  | |- context [?a <=? ?b] =>
      first [ replace (a <=? b) with true by (symmetry; apply N.leb_le; lia)
            | replace (a <=? b) with false by (symmetry; apply N.leb_gt; lia) ]
  | |- context [?a =? ?b] =>
      first [ replace (a =? b) with true by (symmetry; apply N.eqb_eq; lia)
            | replace (a =? b) with false by (symmetry; apply N.eqb_neq; lia) ]
  | |- context [?a <? ?b] =>
      first [ replace (a <? b) with true by (symmetry; apply N.ltb_lt; lia)
            | replace (a <? b) with false by (symmetry; apply N.ltb_ge; lia) ]
  end.

(** Decoding what the encoder wrote for a scalar value gives it back. *)
Lemma utf8_decode_encode_code_point c rest :
  is_scalar c = true →
  utf8_decode_from initial (utf8_encode_code_point c ++ rest)
  = c :: utf8_decode_from initial rest.
Proof.
  unfold is_scalar. intros Hc.
  assert (c < 55296 ∨ 57344 <= c < 1114112) as Hrange.
  { apply orb_prop in Hc as [H|H]; [left; by apply N.ltb_lt|right].
    apply andb_prop in H as [H1 H2]. apply N.leb_le in H1.
    apply N.ltb_lt in H2. lia. }
  clear Hc. rewrite utf8_encode_code_point_arith.
  destruct (N.ltb_spec c 128); [|destruct (N.ltb_spec c 2048);
    [|destruct (N.ltb_spec c 65536)]].
  - cbn [app utf8_decode_from]. by rewrite handler_ascii by lia.
  - cbn [app utf8_decode_from]. rewrite handler_lead by lia.
    settle_comparisons. cbn [andb].
    rewrite handler_continuation by done.
    cbn [lower_boundary upper_boundary bytes_seen bytes_needed code_point].
    settle_comparisons. cbn [andb]. f_equal. lia.
  - cbn [app utf8_decode_from]. rewrite handler_lead by lia.
    settle_comparisons. cbn [andb].
    rewrite handler_continuation by done.
    cbn [lower_boundary upper_boundary bytes_seen bytes_needed code_point].
    assert ((if c / 4096 + 224 =? 224 then 160 else 128)
            <= 128 + (c / 64) mod 64) as Hlow
      by (destruct (N.eqb_spec (c / 4096 + 224) 224); lia).
    assert (128 + (c / 64) mod 64
            <= (if c / 4096 + 224 =? 237 then 159 else 191)) as Hhigh
      by (destruct (N.eqb_spec (c / 4096 + 224) 237); lia).
    apply N.leb_le in Hlow, Hhigh. rewrite Hlow, Hhigh.
    change (0 + 1 =? 2) with false. cbn [andb].
    rewrite handler_continuation by done.
    cbn [lower_boundary upper_boundary bytes_seen bytes_needed code_point].
    settle_comparisons. cbn [andb]. f_equal. lia.
  - cbn [app utf8_decode_from]. rewrite handler_lead by lia.
    settle_comparisons. cbn [andb].
    rewrite handler_continuation by done.
    cbn [lower_boundary upper_boundary bytes_seen bytes_needed code_point].
    assert ((if c / 262144 + 240 =? 240 then 144 else 128)
            <= 128 + (c / 4096) mod 64) as Hlow
      by (destruct (N.eqb_spec (c / 262144 + 240) 240); lia).
    assert (128 + (c / 4096) mod 64
            <= (if c / 262144 + 240 =? 244 then 143 else 191)) as Hhigh
      by (destruct (N.eqb_spec (c / 262144 + 240) 244); lia).
    apply N.leb_le in Hlow, Hhigh. rewrite Hlow, Hhigh.
    change (0 + 1 =? 3) with false. cbn [andb].
    rewrite handler_continuation by done.
    cbn [lower_boundary upper_boundary bytes_seen bytes_needed code_point].
    settle_comparisons. cbn [andb].
    rewrite handler_continuation by done.
    cbn [lower_boundary upper_boundary bytes_seen bytes_needed code_point].
    settle_comparisons. cbn [andb]. f_equal. lia.
Qed.

Lemma utf8_decode_encode s :
  Forall (λ c, is_scalar c = true) s → utf8_decode (utf8_encode s) = s.
Proof.
  unfold utf8_decode, utf8_encode.
  induction 1 as [|c s Hc _ IH]; [done|].
  cbn [flat_map]. rewrite utf8_decode_encode_code_point by done.
  by rewrite IH.
Qed.

Lemma decoder_ok_needed d :
  decoder_ok d → d = initial ∨ (d ≠ initial ∧ bytes_needed d ≠ 0).
Proof.
  intros [->|(Hs & _)]; [by left|right]. split; [|lia].
  intros ->. simpl in Hs. lia.
Qed.

(** One step of the decoder keeps [decoder_ok] and emits scalar values. *)
Lemma handler_ok d b :
  decoder_ok d →
  match handler d b with
  | Continue d' => decoder_ok d'
  | Emit c d' => is_scalar c = true ∧ decoder_ok d'
  | Error d' _ => decoder_ok d'
  end.
Proof.
  intros [->|(Hseen & Hneed & Hlow & Hhigh & Hrange)].
  - destruct (N.le_gt_cases b 127) as [Hb|Hb].
    + rewrite handler_ascii by done. split; [|by left].
      unfold is_scalar. apply orb_true_iff. left. apply N.ltb_lt. lia.
    + rewrite handler_lead by lia.
      assert (b <= 193 ∨ 194 <= b <= 223 ∨ 224 <= b <= 239
              ∨ 240 <= b <= 244 ∨ 245 <= b) as Hkind by lia.
      destruct Hkind as [Hk|[Hk|[Hk|[Hk|Hk]]]];
        settle_comparisons; cbn [andb]; try (by left).
      * right.
        cbn [bytes_seen bytes_needed lower_boundary upper_boundary code_point].
        change (unit_of (1 - 0)) with 1. lia.
      * right.
        cbn [bytes_seen bytes_needed lower_boundary upper_boundary code_point].
        change (unit_of (2 - 0)) with 64.
        destruct (N.eqb_spec b 224); destruct (N.eqb_spec b 237); lia.
      * right.
        cbn [bytes_seen bytes_needed lower_boundary upper_boundary code_point].
        change (unit_of (3 - 0)) with 4096.
        destruct (N.eqb_spec b 240); destruct (N.eqb_spec b 244); lia.
  - rewrite handler_continuation by lia.
    destruct (N.leb_spec (lower_boundary d) b);
      destruct (N.leb_spec b (upper_boundary d)); cbn [andb]; try (by left).
    assert (bytes_needed d - bytes_seen d = 1
            ∨ bytes_needed d - bytes_seen d = 2
            ∨ bytes_needed d - bytes_seen d = 3) as Hr by lia.
    cbv zeta in Hrange.
    destruct (N.eqb_spec (bytes_seen d + 1) (bytes_needed d)) as [Hlast|Hmore].
    + split; [|by left].
      replace (bytes_needed d - bytes_seen d) with 1 in Hrange by lia.
      unfold unit_of in Hrange. cbn in Hrange.
      unfold is_scalar. apply orb_true_iff.
      destruct Hrange as [Hr1|Hr1]; [left; apply N.ltb_lt; lia|right].
      apply andb_true_iff. split; [apply N.leb_le|apply N.ltb_lt]; lia.
    + right. cbn [bytes_seen bytes_needed lower_boundary upper_boundary code_point].
      split; [lia|]. split; [lia|]. split; [lia|]. split; [lia|].
      cbv zeta.
      destruct Hr as [Hr|[Hr|Hr]]; [lia|..].
      * replace (bytes_needed d - (bytes_seen d + 1)) with 1 by lia.
        rewrite Hr in Hrange. unfold unit_of in *. cbn in Hrange |- *. lia.
      * replace (bytes_needed d - (bytes_seen d + 1)) with 2 by lia.
        rewrite Hr in Hrange. unfold unit_of in *. cbn in Hrange |- *. lia.
Qed.

Lemma initial_ok : decoder_ok initial.
Proof. by left. Qed.

(** The decoder only yields scalar values. *)
Lemma utf8_decode_from_scalar bytes : ∀ d,
  decoder_ok d →
  Forall (λ c, is_scalar c = true) (utf8_decode_from d bytes).
Proof.
  induction bytes as [|b bytes IH]; intros d Hd; cbn [utf8_decode_from].
  - destruct (bytes_needed d =? 0); repeat constructor.
  - pose proof (handler_ok d b Hd) as Hstep.
    destruct (handler d b) as [d'|c d'|d' [|]].
    + by apply IH.
    + destruct Hstep. constructor; [done|by apply IH].
    + constructor; [done|].
      pose proof (handler_ok d' b Hstep) as Hagain.
      destruct (handler d' b) as [d''|c d''|d'' ?].
      * by apply IH.
      * destruct Hagain. constructor; [done|by apply IH].
      * constructor; [done|by apply IH].
    + constructor; [done|by apply IH].
Qed.

Lemma utf8_decode_scalar bytes :
  Forall (λ c, is_scalar c = true) (utf8_decode bytes).
Proof. apply utf8_decode_from_scalar, initial_ok. Qed.

End Utf8.

Section FormUrlencoded.
Import Url Spec Scan.

Local Ltac Zify.zify_post_hook ::= Z.to_euclidean_division_equations.

(** A property of bytes checked on each of them. *)
Lemma for_all_bytes (p : N → bool) :
  forallb p (map N.of_nat (seq 0 256)) = true →
  ∀ b, b < 256 → p b = true.
Proof.
  intros Hall b Hb. rewrite forallb_forall in Hall. apply Hall.
  apply in_map_iff. exists (N.to_nat b). split; [lia|].
  apply in_seq. lia.
Qed.

Lemma urlencoded_encode_byte_reads_as b :
  b < 256 → reads_as b (urlencoded_encode_byte b) = true.
Proof. revert b. apply for_all_bytes. by vm_compute. Qed.

Lemma urlencoded_encode_byte_plain b :
  b < 256 → forallb is_plain_byte (urlencoded_encode_byte b) = true.
Proof. revert b. apply for_all_bytes. by vm_compute. Qed.

Lemma utf8_encode_code_point_bytes c :
  is_scalar c = true → Forall (λ b, b < 256) (utf8_encode_code_point c).
Proof.
  unfold is_scalar. intros Hc.
  assert (c < 1114112) as Hrange.
  { apply orb_prop in Hc as [H|H]; [apply N.ltb_lt in H; lia|].
    apply andb_prop in H as [_ H]. by apply N.ltb_lt in H. }
  rewrite utf8_encode_code_point_arith.
  destruct (N.ltb_spec c 128); [|destruct (N.ltb_spec c 2048);
    [|destruct (N.ltb_spec c 65536)]]; repeat constructor; lia.
Qed.

Lemma utf8_encode_bytes s :
  Forall (λ c, is_scalar c = true) s → Forall (λ b, b < 256) (utf8_encode s).
Proof.
  unfold utf8_encode. induction 1 as [|c s Hc _ IH]; [constructor|].
  cbn [flat_map]. apply Forall_app. split; [|done].
  by apply utf8_encode_code_point_bytes.
Qed.

Lemma percent_decode_written b rest :
  b < 256 →
  percent_decode (plus_to_space (urlencoded_encode_byte b) ++ rest)
  = b :: percent_decode rest.
Proof.
  intros Hb. pose proof (urlencoded_encode_byte_reads_as b Hb) as Hread.
  unfold reads_as in Hread.
  destruct (plus_to_space (urlencoded_encode_byte b)) as [|x [|h [|l [|]]]];
    try done.
  - apply andb_prop in Hread as [Hx H37]. apply N.eqb_eq in Hx. subst x.
    apply negb_true_iff in H37. cbn [app percent_decode]. by rewrite H37.
  - apply andb_prop in Hread as [Hp Hhex]. apply N.eqb_eq in Hp. subst x.
    cbn [app percent_decode]. change (37 =? 37) with true. cbn match.
    destruct (hex_value h) as [a|]; [|done].
    destruct (hex_value l) as [c|]; [|done].
    apply N.eqb_eq in Hhex. by rewrite Hhex.
Qed.

(** Reading back the bytes written for a byte sequence. *)
Lemma percent_decode_urlencoded bytes :
  Forall (λ b, b < 256) bytes →
  percent_decode (plus_to_space (flat_map urlencoded_encode_byte bytes))
  = bytes.
Proof.
  induction 1 as [|b bytes Hb _ IH]; [done|].
  cbn [flat_map]. unfold plus_to_space in *. rewrite map_app.
  rewrite (percent_decode_written b _ Hb). by rewrite IH.
Qed.

Lemma urlencoded_encode_plain s :
  Forall (λ c, is_scalar c = true) s →
  forallb is_plain_byte (urlencoded_encode s) = true.
Proof.
  intros Hs. unfold urlencoded_encode.
  induction (utf8_encode_bytes s Hs) as [|b bytes Hb _ IH]; [done|].
  cbn [flat_map]. rewrite forallb_app, IH.
  by rewrite urlencoded_encode_byte_plain.
Qed.

(** A name and a value, written and read back. *)
Lemma urlencoded_decode_encode s :
  Forall (λ c, is_scalar c = true) s →
  utf8_decode (percent_decode (plus_to_space (urlencoded_encode s))) = s.
Proof.
  intros Hs. unfold urlencoded_encode.
  rewrite percent_decode_urlencoded by by apply utf8_encode_bytes.
  by apply utf8_decode_encode.
Qed.

Lemma plain_lacks x :
  forallb is_plain_byte x = true → lacks 38 x = true ∧ lacks 61 x = true.
Proof.
  unfold lacks. induction x as [|b x IH]; [done|].
  cbn [forallb]. intros [Hb Hx]%andb_prop.
  destruct (IH Hx) as [-> ->].
  unfold is_plain_byte in Hb. apply andb_prop in Hb as [-> ->]. done.
Qed.

Lemma split_name_value_app name value :
  lacks 61 name = true →
  split_name_value (name ++ [61] ++ value) = (name, value).
Proof.
  induction name as [|b name IH]; intros Hplain; [done|].
  cbn in Hplain. apply andb_prop in Hplain as [Hb Hname].
  apply negb_true_iff in Hb.
  cbn [app split_name_value]. rewrite Hb.
  change (name ++ 61 :: value) with (name ++ [61] ++ value).
  by rewrite IH.
Qed.

Lemma split_at_plain piece x rest :
  lacks 38 x = true →
  split_at 38 piece (x ++ rest) = split_at 38 (piece ++ x) rest.
Proof.
  revert piece. induction x as [|b x IH]; intros piece Hplain.
  - by rewrite app_nil_r.
  - cbn in Hplain. apply andb_prop in Hplain as [Hb Hx].
    apply negb_true_iff in Hb.
    cbn [app split_at]. rewrite Hb, IH by done.
    by rewrite <- app_assoc.
Qed.

(** Splitting at [&] what was joined with [&]. *)
Lemma split_string_join pieces :
  pieces ≠ [] →
  Forall (λ x, lacks 38 x = true) pieces →
  split_string 38 (join [38] pieces) = pieces.
Proof.
  unfold split_string. intros Hne Hplain.
  induction Hplain as [|x pieces Hx Hrest IH]; [done|].
  destruct pieces as [|y pieces].
  - cbn [join]. rewrite <- (app_nil_r x) at 1.
    by rewrite split_at_plain.
  - change (join [38] (x :: y :: pieces))
      with (x ++ [38] ++ join [38] (y :: pieces)).
    rewrite split_at_plain by done. cbn [app split_at].
    change (38 =? 38) with true. cbn match. by rewrite IH.
Qed.

(** The parser yields scalar value strings. *)
Lemma urlencoded_parse_scalar input :
  Forall scalar_tuple (urlencoded_parse input).
Proof.
  unfold urlencoded_parse.
  induction (split_string 38 input) as [|bytes l IH]; [constructor|].
  cbn [omap list_omap]. case_bool_decide; [done|].
  destruct (split_name_value bytes) as [name value].
  constructor; [|done]. split; apply utf8_decode_scalar.
Qed.

(** The parser reads what the serializer wrote. *)
Lemma urlencoded_parse_serialize tuples :
  Forall scalar_tuple tuples →
  urlencoded_parse (urlencoded_serialize tuples) = tuples.
Proof.
  intros Hscalar. destruct tuples as [|t tuples]; [done|].
  unfold urlencoded_parse, urlencoded_serialize.
  rewrite split_string_join.
  - generalize (t :: tuples), Hscalar. clear.
    induction 1 as [|[name value] tuples [Hn Hv] _ IH]; [done|].
    cbn [map omap list_omap fst snd].
    case_bool_decide as Hnil; [by apply app_eq_nil in Hnil as [_ ?]|].
    rewrite split_name_value_app
      by by apply plain_lacks, urlencoded_encode_plain.
    rewrite !urlencoded_decode_encode by done.
    cbn [fmap option_fmap option_map]. by rewrite IH.
  - done.
  - generalize (t :: tuples), Hscalar. clear.
    induction 1 as [|[name value] tuples [Hn Hv] _ IH]; [constructor|].
    cbn [map fst snd]. constructor; [|done].
    unfold lacks. rewrite !forallb_app.
    destruct (plain_lacks _ (urlencoded_encode_plain name Hn)) as [H1 _].
    destruct (plain_lacks _ (urlencoded_encode_plain value Hv)) as [H2 _].
    unfold lacks in H1, H2. by rewrite H1, H2.
Qed.

End FormUrlencoded.

Section QueryCharacters.
Import Url Spec Scan Notions.

Lemma urlencoded_encode_byte_query_chars b :
  b < 256 → forallb is_query_char (urlencoded_encode_byte b) = true.
Proof. revert b. apply for_all_bytes. by vm_compute. Qed.

Lemma urlencoded_encode_query_chars s :
  Forall (λ c, is_scalar c = true) s →
  forallb is_query_char (urlencoded_encode s) = true.
Proof.
  intros Hs. unfold urlencoded_encode.
  induction (utf8_encode_bytes s Hs) as [|b bytes Hb _ IH]; [done|].
  cbn [flat_map]. rewrite forallb_app, IH.
  by rewrite urlencoded_encode_byte_query_chars.
Qed.

Lemma forallb_join (p : N → bool) sep pieces :
  forallb p sep = true →
  Forall (λ x, forallb p x = true) pieces →
  forallb p (join sep pieces) = true.
Proof.
  intros Hsep. induction 1 as [|x pieces Hx _ IH]; [done|].
  destruct pieces as [|y pieces]; [exact Hx|].
  change (join sep (x :: y :: pieces)) with (x ++ sep ++ join sep (y :: pieces)).
  by rewrite !forallb_app, Hx, Hsep, IH.
Qed.

(** A serialized parameter list is made of query characters. *)
Lemma urlencoded_serialize_query_chars tuples :
  Forall scalar_tuple tuples →
  forallb is_query_char (urlencoded_serialize tuples) = true.
Proof.
  intros Hscalar. unfold urlencoded_serialize.
  apply forallb_join; [done|]. apply Forall_map.
  eapply Forall_impl; [exact Hscalar|].
  intros [name value] [Hn Hv]. cbn [fst snd] in *.
  by rewrite !forallb_app, !urlencoded_encode_query_chars.
Qed.

End QueryCharacters.

Section CleanedUrls.
Import Url UrlTrimmer Spec Scan.

Variable e : engine.

Lemma retained_scalar params :
  Forall scalar_tuple params → Forall scalar_tuple (retained params).
Proof.
  unfold retained. induction 1 as [|t params Ht _ IH]; [constructor|].
  simpl. destruct (negb _); [by constructor|done].
Qed.



Lemma retained_parameters_scalar u :
  Forall scalar_tuple (retained (parameters u)).
Proof. apply retained_scalar, urlencoded_parse_scalar. Qed.

(** The parameters of a URL whose query was written from scalar tuples
    are those tuples. *)
Lemma parameters_with_parameters u params :
  Forall scalar_tuple params →
  parameters (with_parameters e u params) = params.
Proof.
  intros Hscalar. unfold parameters, with_parameters. cbn [query].
  destruct params as [|t params]; [done|].
  cbn [default]. by apply urlencoded_parse_serialize.
Qed.



End CleanedUrls.

(** The parser of plain URLs reads the URLs the cleaner writes. *)
Section PlainUrls.
Import Url UrlTrimmer Spec Scan Examples Notions.


















End PlainUrls.

Section UrlTrimmerClaims.
Import Url UrlTrimmer Spec Scan Examples.

Variable e : engine.
Variable parse : jsstring → option URL.

(** C5.  On a line that holds a URL the cleaner removes exactly the
    parameters named in the tracking set and serializes the URL with the
    other parameters in their original order: the query of the output
    reads as the list [kept].  In particular
    [https://a.com/x?utm_source=y&keep=1] becomes [https://a.com/x?keep=1]. *)
Theorem cleanLine_removes_tracked_parameters (line : jsstring) (u : URL) :
  trim line ≠ [] →
  parse (trim line) = Some u →
  (∃ kept,
     cleanLine e parse line = URL_serialize (with_parameters e u kept)
     ∧ parameters (with_parameters e u kept) = kept
     ∧ kept = retained (parameters u)
     ∧ kept `sublist_of` parameters u
     ∧ (∀ t, t ∈ parameters u → (t ∈ kept ↔ t.1 ∉ tracked)))
  ∧ cleanLine e parse_plain (str "https://a.com/x?utm_source=y&keep=1")
    = str "https://a.com/x?keep=1".
Proof.
  intros Hne Hparse. split; [|by destruct e; vm_compute].
  exists (retained (parameters u)).
  split; [by apply cleanLine_valid|].
  split; [by apply parameters_with_parameters, retained_scalar,
             urlencoded_parse_scalar|].
  split; [done|]. split.
  - unfold retained. generalize (parameters u). clear.
    induction l as [|t l IH]; [done|]. simpl.
    destruct (negb _); [by apply sublist_skip|by apply sublist_cons].
  - intros t Ht. unfold retained.
    rewrite list_elem_of_In, filter_In, <- list_elem_of_In.
    rewrite negb_true_iff, bool_decide_eq_false. tauto.
Qed.

(** C6 (the code departs from it).  A blank line gives an empty line.  A
    line that does not hold a URL is not passed through unchanged: the
    marker is appended to the trimmed line, where the comment of the
    [catch] branch says the original line, so that a line with white space
    around it comes out without that white space. *)
Theorem cleanLine_invalid_line_is_trimmed (line : jsstring) :
  (trim line = [] → cleanLine e parse line = [])
  ∧ (trim line ≠ [] → parse (trim line) = None →
     cleanLine e parse line = trim line ++ str " (Invalid URL)"
     ∧ (trim line ≠ line →
        cleanLine e parse line ≠ line ++ str " (Invalid URL)")).
Proof.
  unfold cleanLine, new_URL. split.
  - intros ->. done.
  - intros Hne ->. rewrite bool_decide_eq_false_2 by done.
    cbn [mbind option_bind]. split; [done|].
    intros Hdiff Heq. by apply app_inv_tail in Heq.
Qed.


End UrlTrimmerClaims.

(* ------------------------------------------------------------------ *)
(** ** The claims on concrete inputs *)
(* ------------------------------------------------------------------ *)

Import Gemini Url UrlTrimmer WordCounter Spec Scan Examples.

(** C1: HTTP 400 on the first attempt, then generated text: the invoker
    sleeps and asks again. *)
Lemma generateContent_terminal_first_is_retried_witness :
  ∃ c rest,
    generateContent bad_request_then_text prompt systemInstruction
    = (c, request prompt systemInstruction :: Sleep 1000
          :: request prompt systemInstruction :: rest).
Proof.
  apply (generateContent_terminal_first_is_retried bad_request_then_text).
  reflexivity.
Defined.

(** C1: the whole run on that input returns the text of the second
    attempt. *)
Example generateContent_bad_request_then_text :
  generateContent bad_request_then_text prompt systemInstruction
  = (Normal (VString (str "hi")),
     [request prompt systemInstruction; Sleep 1000;
      request prompt systemInstruction]).
Proof. reflexivity. Qed.

(** C2 as stated fails: a response with a success status whose body is not
    JSON is no success for the invoker, which goes on to the next attempt. *)
Lemma generateContent_unreadable_success_counterexample :
  transport_success html_page = true
  ∧ ¬ ∃ v,
      generateContent (λ _, html_page) prompt systemInstruction
      = (Normal v, schedule (request prompt systemInstruction) (take 0 delays)).
Proof.
  split; [reflexivity|]. intros [v Hv].
  assert ((generateContent (λ _, html_page) prompt systemInstruction).1
          = Throw (Rejection (str "Unexpected token '<'"))) as Hrun
    by reflexivity.
  rewrite Hv in Hrun. discriminate.
Qed.

Lemma generateContent_retry_then_success_witness :
  ∃ v trace,
    extract_text (VObject {[ str "candidates" :=
      VArray [VObject {[ str "content" :=
        VObject {[ str "parts" :=
          VArray [VObject {[ str "text" := VString (str "hi") ]}] ]} ]}] ]})
    = Normal v
    ∧ generateContent two_failures_then_text prompt systemInstruction
      = (Normal v, trace)
    ∧ trace = schedule (request prompt systemInstruction) (take 2 delays)
    ∧ attempts trace = 3%nat
    ∧ sleeps trace = take 2 delays.
Proof.
  apply (generateContent_retry_then_success two_failures_then_text
           prompt systemInstruction 2).
  - lia.
  - intros [|[|i]] Hi; [reflexivity..|lia].
  - eexists. split; [reflexivity|]. split; reflexivity.
  - reflexivity.
Defined.

Lemma generateContent_retries_exhausted_witness :
  ∃ trace,
    generateContent (λ _, unavailable) prompt systemInstruction
    = (Throw (NewError (str "API Error: 503")), trace)
    ∧ trace = schedule (request prompt systemInstruction) delays
    ∧ attempts trace = 6%nat
    ∧ sleeps trace = delays.
Proof.
  apply (generateContent_retries_exhausted (λ _, unavailable)
           prompt systemInstruction).
  intros i Hi. reflexivity.
Defined.

Lemma generated_has_text text :
  ∃ data, generated text = FetchResolves {| status := 200; body := BodyJson data |}
          ∧ has_text data text.
Proof.
  eexists. split; [reflexivity|].
  eexists _, _, _, _, _, _. split; [reflexivity|].
  repeat split; apply lookup_singleton_eq.
Qed.

(** C4 as stated fails: the text is there and is the empty string, and the
    invoker returns the fallback string instead. *)
Lemma generateContent_empty_text_counterexample :
  (∃ data, generated (VString (str ""))
           = FetchResolves {| status := 200; body := BodyJson data |}
           ∧ has_text data (VString (str "")))
  ∧ generateContent (λ _, generated (VString (str ""))) prompt systemInstruction
    ≠ (Normal (VString (str "")), [request prompt systemInstruction]).
Proof.
  split; [apply generated_has_text|].
  assert ((generateContent (λ _, generated (VString (str "")))
             prompt systemInstruction).1 = Normal fallback) as Hrun
    by reflexivity.
  intros Heq. rewrite Heq in Hrun. discriminate.
Qed.

Lemma generateContent_success_text_or_fallback_witness :
  generateContent two_failures_then_text prompt systemInstruction
  = (Normal (VString (str "hi")),
     schedule (request prompt systemInstruction) (take 2 delays)).
Proof.
  destruct (generated_has_text (VString (str "hi"))) as (data & Hdata & Htext).
  apply (generateContent_success_text_or_fallback two_failures_then_text
           prompt systemInstruction 2 data).
  - lia.
  - intros [|[|i]] Hi; [reflexivity..|lia].
  - eexists. split; [exact Hdata|]. split; reflexivity.
  - by apply answer_text.
Defined.

(** C4: a body without candidates gives the fallback string. *)
Example generateContent_no_candidates :
  generateContent
    (λ _, FetchResolves {| status := 200; body := BodyJson (VObject ∅) |})
    prompt systemInstruction
  = (Normal (VString (str "No response generated.")),
     [request prompt systemInstruction]).
Proof. reflexivity. Qed.

Lemma generateContent_empty_text_gives_fallback_witness :
  generateContent (λ _, generated (VString (str ""))) prompt systemInstruction
  = (Normal (VString (str "No response generated.")),
     schedule (request prompt systemInstruction) (take 0 delays)).
Proof.
  destruct (generated_has_text (VString (str ""))) as (data & Hdata & Htext).
  apply (generateContent_empty_text_gives_fallback
           (λ _, generated (VString (str ""))) prompt systemInstruction 0 data).
  - lia.
  - intros i Hi. lia.
  - eexists. split; [exact Hdata|]. split; reflexivity.
  - exact Htext.
Defined.

Lemma stats_hello_world :
  let st := stats (str "hello world") in
  (words st, chars st, charsNoSpace st, paragraphs st, readTime st)
  = (2, 11, 10, 1, str "1 min").
Proof. reflexivity. Qed.

(** C8: the empty text has no words and reads in "1 min". *)
Lemma readTime_of_blank_text_witness :
  words (stats (str "")) = 0
  ∧ readTime (stats (str "")) = str "1 min"
  ∧ decimal (ceil_div_200 (words (stats (str "")))) ++ str " min"
    = str "0 min".
Proof. apply (readTime_of_blank_text (str "")). reflexivity. Defined.

Lemma cleanLine_removes_tracked_parameters_witness :
  (∃ kept,
     cleanLine UrlStandard parse_plain
       (str "https://a.com/x?utm_source=y&keep=1")
     = URL_serialize
         (with_parameters UrlStandard
            {| before_query := str "https://a.com/x"; opaque_path := false;
               query := Some (str "utm_source=y&keep=1");
               fragment := None |} kept)
     ∧ parameters
         (with_parameters UrlStandard
            {| before_query := str "https://a.com/x"; opaque_path := false;
               query := Some (str "utm_source=y&keep=1");
               fragment := None |} kept) = kept
     ∧ kept = retained (parameters
                {| before_query := str "https://a.com/x";
                   opaque_path := false;
                   query := Some (str "utm_source=y&keep=1");
                   fragment := None |})
     ∧ kept `sublist_of` parameters
                {| before_query := str "https://a.com/x";
                   opaque_path := false;
                   query := Some (str "utm_source=y&keep=1");
                   fragment := None |}
     ∧ (∀ t, t ∈ parameters
                {| before_query := str "https://a.com/x";
                   opaque_path := false;
                   query := Some (str "utm_source=y&keep=1");
                   fragment := None |} →
             (t ∈ kept ↔ t.1 ∉ tracked)))
  ∧ cleanLine UrlStandard parse_plain
      (str "https://a.com/x?utm_source=y&keep=1")
    = str "https://a.com/x?keep=1".
Proof.
  apply (cleanLine_removes_tracked_parameters UrlStandard parse_plain
           (str "https://a.com/x?utm_source=y&keep=1")).
  - discriminate.
  - reflexivity.
Defined.

(** C5 on a [data:] URL whose path ends with spaces: once the query is
    gone the spaces are gone too, on either engine. *)
Example cleanLine_data_url_emptied (e : engine) :
  cleanLine e parse_data (str "data:text/plain,hi  ?ref=1")
  = str "data:text/plain,hi"
  ∧ cleanLine e parse_data (str "data:text/plain,hi  ?")
    = str "data:text/plain,hi"
  ∧ cleanLine e parse_data (str "data:text/plain,hi  ?ref=1#top")
    = str "data:text/plain,hi  #top".
Proof. by destruct e. Qed.

(** While a parameter is left, the URL standard keeps the spaces and
    Node.js removes them. *)
Example cleanLine_data_url_kept :
  cleanLine UrlStandard parse_data (str "data:text/plain,hi  ?x=1&ref=1")
  = str "data:text/plain,hi  ?x=1"
  ∧ cleanLine NodeJs parse_data (str "data:text/plain,hi  ?x=1&ref=1")
    = str "data:text/plain,hi?x=1".
Proof. done. Qed.

(** C6: the line [ not a url] comes out without its leading space. *)
Lemma cleanLine_invalid_line_is_trimmed_witness :
  cleanLine UrlStandard parse_plain (str "  ") = []
  ∧ cleanLine UrlStandard parse_plain (str " not a url")
    = str "not a url (Invalid URL)"
  ∧ cleanLine UrlStandard parse_plain (str " not a url")
    ≠ str " not a url" ++ str " (Invalid URL)".
Proof.
  destruct (cleanLine_invalid_line_is_trimmed UrlStandard parse_plain
              (str "  ")) as [Hblank _].
  destruct (cleanLine_invalid_line_is_trimmed UrlStandard parse_plain
              (str " not a url")) as [_ Hinvalid].
  split; [by apply Hblank|].
  destruct Hinvalid as [Hout Hdiff]; [discriminate|reflexivity|].
  split; [exact Hout|]. apply Hdiff. discriminate.
Defined.



(** C9 on [data:] URLs: cleaning the output again changes nothing, with
    the spaces gone or kept. *)
Example cleanLine_data_url_twice (e : engine) :
  cleanLine e parse_data (cleanLine e parse_data (str "data:text/plain,hi  ?ref=1"))
  = cleanLine e parse_data (str "data:text/plain,hi  ?ref=1")
  ∧ cleanLine e parse_data
      (cleanLine e parse_data (str "data:text/plain,hi  ?x=1"))
    = cleanLine e parse_data (str "data:text/plain,hi  ?x=1")
  ∧ cleanLine e parse_data
      (cleanLine e parse_data (str "data:text/plain,hi  ?ref=1#top"))
    = cleanLine e parse_data (str "data:text/plain,hi  ?ref=1#top").
Proof. by destruct e. Qed.

(** The cleaner on a whole text: a URL, a blank line and a line that is
    no URL. *)
Example cleanUrls_three_lines (e : engine) :
  cleanUrls e parse_plain
    (str "https://a.com/x?utm_source=y&keep=1" ++ [10] ++ str "  " ++ [10]
     ++ str " not a url")
  = str "https://a.com/x?keep=1" ++ [10] ++ [10]
    ++ str "not a url (Invalid URL)".
Proof. by destruct e. Qed.

(* ================================================================== *)
(** * Part IV: further properties of the program *)
(* ================================================================== *)

Section InvokerProperties.
Import Notions.

Variable env : nat → fetch_outcome.
Variables prompt systemInstruction : jsstring.

(** The loop from index [i]: it ends at the first attempt [k] whose [try]
    block completes, or at the last index. *)
Lemma loop_ends (request : event) n : ∀ i trace,
  (i + n = 6)%nat → (1 ≤ n)%nat →
  ∃ k, (i ≤ k ≤ 5)%nat
       ∧ (∀ j, (i ≤ j < k)%nat → ∃ e, try_block (env j) = Throw e)
       ∧ (k < 5 → ∃ v, try_block (env k) = Normal v)%nat
       ∧ loop env request n i trace
         = (try_block (env k),
            trace ++ retries request (take (k - i) (drop i delays)) ++ [request]).
Proof.
  induction n as [|n IH]; intros i trace Hin Hn; [lia|].
  cbn [loop]. destruct (try_block (env i)) as [v|e] eqn:Ei.
  - exists i. split; [lia|]. split; [intros j Hj; lia|].
    split; [by eauto|]. rewrite Ei, Nat.sub_diag. done.
  - case_bool_decide as Hlast.
    + change (length delays) with 5%nat in Hlast. exists i.
      split; [lia|]. split; [intros j Hj; lia|]. split; [lia|].
      rewrite Ei, Nat.sub_diag. done.
    + change (length delays) with 5%nat in Hlast.
      destruct (IH (S i) ((trace ++ [request]) ++ [Sleep (nth i delays 0)]))
        as (k & Hk & Hfail & Hnormal & Hloop); [lia..|].
      exists k. split; [lia|]. split.
      { intros j Hj. destruct (decide (j = i)) as [->|]; [by eauto|].
        apply Hfail. lia. }
      split; [done|]. rewrite Hloop. f_equal.
      destruct (lookup_lt_is_Some_2 delays i) as [d Hd];
        [change (length delays) with 5%nat; lia|].
      rewrite (drop_S _ _ _ Hd), nth_lookup, Hd.
      replace (k - i)%nat with (S (k - S i)) by lia.
      cbn [take retries default]. by rewrite <- !app_assoc.
Qed.

(** An invocation ends at the first attempt whose [try] block completes,
    or at the sixth. *)
Lemma generateContent_first_completion :
  ∃ k, (k ≤ 5)%nat
       ∧ (∀ j, (j < k)%nat → ∃ e, try_block (env j) = Throw e)
       ∧ (k < 5 → ∃ v, try_block (env k) = Normal v)%nat
       ∧ generateContent env prompt systemInstruction
         = (try_block (env k),
            schedule (request prompt systemInstruction) (take k delays)).
Proof.
  destruct (loop_ends (request prompt systemInstruction) 6 0 [])
    as (k & Hk & Hfail & Hnormal & Hloop); [lia..|].
  exists k. split; [lia|]. split; [intros j Hj; apply Hfail; lia|].
  split; [done|]. unfold generateContent.
  change (S (length delays)) with 6%nat. rewrite Hloop.
  by rewrite Nat.sub_0_r.
Qed.

Lemma total_sleep_schedule u b k :
  (k ≤ 5)%nat → total_sleep (schedule (Fetch u b) (take k delays)) <= 31000.
Proof.
  intros Hk. unfold total_sleep. rewrite sleeps_schedule.
  assert (k = 0 ∨ k = 1 ∨ k = 2 ∨ k = 3 ∨ k = 4 ∨ k = 5)%nat as Hcases by lia.
  destruct Hcases as [->|[->|[->|[->|[->| ->]]]]]; by vm_compute.
Qed.

(** X1.  Whatever the endpoint does, an invocation ends at the first
    attempt [k] whose [try] block completes, or at the sixth attempt when
    none does: its completion is that of attempt [k], it made [k + 1]
    calls and slept for the first [k] delays, 31000 ms at most. *)
Theorem generateContent_ends :
  ∃ k, (k ≤ 5)%nat
       ∧ (∀ j, (j < k)%nat → ∃ e, try_block (env j) = Throw e)
       ∧ (k < 5 → ∃ v, try_block (env k) = Normal v)%nat
       ∧ generateContent env prompt systemInstruction
         = (try_block (env k),
            schedule (request prompt systemInstruction) (take k delays))
       ∧ attempts (generateContent env prompt systemInstruction).2 = S k
       ∧ sleeps (generateContent env prompt systemInstruction).2 = take k delays
       ∧ total_sleep (generateContent env prompt systemInstruction).2 <= 31000.
Proof.
  destruct generateContent_first_completion
    as (k & Hk & Hfail & Hnormal & Hrun).
  exists k. split; [done|]. split; [done|]. split; [done|].
  split; [done|]. rewrite Hrun. cbn [snd]. unfold request.
  rewrite attempts_schedule, sleeps_schedule, length_take.
  change (length delays) with 5%nat. rewrite Nat.min_l by done.
  split; [done|]. split; [done|]. by apply total_sleep_schedule.
Qed.

(** What the [try] block returns is truthy. *)
Lemma try_block_truthy o v : try_block o = Normal v → ToBoolean v = true.
Proof.
  destruct o as [reason|r]; [done|]. cbn [try_block].
  destruct (negb (ok r)).
  - destruct ((status r =? 429) || (500 <=? status r)); [done|].
    destruct (json r) as [errorData|]; [|done].
    cbn [mbind completion_bind].
    by destruct (error_of_body errorData).
  - destruct (json r) as [data|]; [|done].
    cbn [mbind completion_bind]. unfold extract_text.
    destruct (member data _) as [candidates|]; [|done].
    cbn [mbind completion_bind]. unfold mret, completion_ret.
    intros [= <-]. unfold or_else.
    destruct (ToBoolean (opt_member _ _)) eqn:E; [exact E|reflexivity].
Qed.

(** X2.  A value the invoker returns is truthy: never [undefined], never
    the empty string. *)
Theorem generateContent_returns_truthy (v : value) (trace : list event) :
  generateContent env prompt systemInstruction = (Normal v, trace) →
  ToBoolean v = true.
Proof.
  destruct generateContent_first_completion as (k & _ & _ & _ & Hrun).
  rewrite Hrun. intros [= Hv _]. by apply (try_block_truthy (env k)).
Qed.

(** X3.  The invoker throws only what the sixth attempt threw, after six
    calls and the five delays, 31000 ms in all: no error ends it early. *)
Theorem generateContent_throws_late (error : thrown) (trace : list event) :
  generateContent env prompt systemInstruction = (Throw error, trace) →
  try_block (env 5%nat) = Throw error
  ∧ trace = schedule (request prompt systemInstruction) delays
  ∧ attempts trace = 6%nat
  ∧ sleeps trace = delays
  ∧ total_sleep trace = 31000.
Proof.
  destruct generateContent_first_completion as (k & Hk & _ & Hnormal & Hrun).
  rewrite Hrun. intros [= Hthrow <-].
  assert (k = 5)%nat as ->.
  { destruct (decide (k < 5)%nat) as [Hlt|]; [|lia].
    destruct (Hnormal Hlt) as [v Hv]. congruence. }
  split; [done|]. split; [done|]. by vm_compute.
Qed.

End InvokerProperties.

Section PanelProperties.
Import Notions Panels.

Variable env : nat → fetch_outcome.
Variable engine_text : thrown → jsstring.
Variables primary prompt systemInstruction : jsstring.

Lemma handle_unfold :
  primary ≠ [] →
  handle env engine_text primary prompt systemInstruction
  = [Update (SetLoading true)]
    ++ map Call (generateContent env prompt systemInstruction).2
    ++ [Update (SetResult
          (shown engine_text (generateContent env prompt systemInstruction).1));
        Update (SetLoading false)].
Proof.
  intros Hne. unfold handle. rewrite bool_decide_eq_false_2 by done.
  by destruct (generateContent env prompt systemInstruction) as [[v|e] trace].
Qed.

Lemma panel_after_calls st (trace : list event) :
  fold_left apply_event (map Call trace) st = st.
Proof. induction trace as [|e trace IH]; [done|]. exact IH. Qed.

Lemma calls_map_Call (trace : list event) : calls (map Call trace) = trace.
Proof.
  unfold calls. induction trace as [|e trace IH]; [done|].
  cbn. by f_equal.
Qed.

Lemma shown_truthy :
  ToBoolean (shown engine_text (generateContent env prompt systemInstruction).1)
  = true.
Proof.
  destruct (generateContent_first_completion env prompt systemInstruction)
    as (k & _ & _ & _ & Hrun).
  rewrite Hrun. cbn [fst]. destruct (try_block (env k)) as [v|e] eqn:Ek.
  - by apply (try_block_truthy (env k)).
  - reflexivity.
Qed.

Lemma handle_calls :
  primary ≠ [] →
  calls (handle env engine_text primary prompt systemInstruction)
  = (generateContent env prompt systemInstruction).2.
Proof.
  intros Hne. rewrite handle_unfold by done. unfold calls.
  rewrite !omap_app.
  change (omap _ (map Call ?t)) with (calls (map Call t)).
  rewrite calls_map_Call. cbn. by rewrite app_nil_r.
Qed.

Lemma handle_panel_after :
  primary ≠ [] →
  panel_after (handle env engine_text primary prompt systemInstruction)
  = {| result := shown engine_text
                   (generateContent env prompt systemInstruction).1;
       loading := false |}.
Proof.
  intros Hne. rewrite handle_unfold by done. unfold panel_after.
  rewrite !fold_left_app, panel_after_calls. reflexivity.
Qed.

(** X4.  A handler with an empty primary field does nothing.  With a
    non-empty one it sets [loading], runs one invocation, sets the result
    once and clears [loading]; the result is the returned value or
    [Error: ] and the message of what was thrown, it is truthy, and the
    result box then shows it with the copy button. *)
Theorem handle_runs_once :
  (primary = [] →
   handle env engine_text primary prompt systemInstruction = [])
  ∧ (primary ≠ [] →
     let run := generateContent env prompt systemInstruction in
     let events := handle env engine_text primary prompt systemInstruction in
     events = [Update (SetLoading true)] ++ map Call run.2
              ++ [Update (SetResult (shown engine_text run.1));
                  Update (SetLoading false)]
     ∧ calls events = run.2
     ∧ panel_after events
       = {| result := shown engine_text run.1; loading := false |}
     ∧ ToBoolean (shown engine_text run.1) = true
     ∧ ResultBox (result (panel_after events)) (loading (panel_after events))
       = Some {| copy_button := true;
                 body := Content (shown engine_text run.1) |}).
Proof.
  split; [by intros ->|]. intros Hne run events.
  split; [by apply handle_unfold|]. split; [by apply handle_calls|].
  split; [by apply handle_panel_after|]. split; [apply shown_truthy|].
  unfold events. rewrite handle_panel_after by done.
  cbn [result loading]. unfold ResultBox. by rewrite shown_truthy.
Qed.

(** When no attempt completes, the sixth decides. *)
Lemma generateContent_all_throw :
  (∀ j, (j < 6)%nat → ∃ e, try_block (env j) = Throw e) →
  generateContent env prompt systemInstruction
  = (try_block (env 5%nat),
     schedule (request prompt systemInstruction) delays).
Proof.
  intros Hfail.
  destruct (generateContent_first_completion env prompt systemInstruction)
    as (k & Hk & _ & Hnormal & Hrun).
  assert (k = 5)%nat as ->; [|done].
  destruct (decide (k < 5)%nat) as [Hlt|]; [|lia].
  destruct (Hnormal Hlt) as [v Hv].
  destruct (Hfail k) as [e He]; [lia|]. congruence.
Qed.

(** X5.  When the six attempts all end on a retryable outcome, the panel
    shows [Error: ] followed by [API Error: ] and the status of the sixth
    response, or by the message of the sixth rejection. *)
Theorem handle_shows_retryable_error :
  primary ≠ [] →
  (∀ i, (i < 6)%nat → retryable (env i) = true) →
  result (panel_after
            (handle env engine_text primary prompt systemInstruction))
  = VString (str "Error: "
             ++ match env 5%nat with
                | FetchRejects reason => reason
                | FetchResolves r => str "API Error: " ++ decimal (status r)
                end)
  ∧ calls (handle env engine_text primary prompt systemInstruction)
    = schedule (request prompt systemInstruction) delays.
Proof.
  intros Hne Hretry.
  rewrite handle_calls, handle_panel_after by done. cbn [result].
  rewrite generateContent_all_throw.
  - cbn [fst snd]. rewrite (retryable_throws (env 5%nat)) by (apply Hretry; lia).
    split; [|done]. by destruct (env 5%nat).
  - intros j Hj. eexists. apply retryable_throws, Hretry. lia.
Qed.

(** The error built from an error document of the endpoint. *)
Lemma error_of_body_message data m :
  endpoint_message data m → error_of_body data = Normal (NewError m).
Proof.
  unfold error_of_body, member, opt_member, or_else.
  destruct 1 as [top err m Herr Hm Hne|top err Herr Hm|top Herr];
    cbn [is_nullish get key_string mbind completion_bind];
    rewrite Herr; cbn [default from_option id is_nullish get key_string];
    rewrite ?Hm; cbn [default from_option id ToBoolean];
    try reflexivity.
  rewrite bool_decide_eq_false_2 by done. reflexivity.
Qed.

(** X6.  When the six attempts all end on a terminal status and the sixth
    response, of a status below 500, carries an error document, the panel
    shows, after six calls and the five delays, [Error: ] followed by the
    message of the document, or by [API Request Failed] when the document
    has none. *)
Theorem handle_shows_endpoint_message (r : response) (data : value)
    (m : jsstring) :
  primary ≠ [] →
  (∀ i, (i < 6)%nat → terminal (env i) = true) →
  env 5%nat = FetchResolves r →
  status r < 500 →
  Gemini.body r = BodyJson data →
  endpoint_message data m →
  result (panel_after
            (handle env engine_text primary prompt systemInstruction))
  = VString (str "Error: " ++ m)
  ∧ calls (handle env engine_text primary prompt systemInstruction)
    = schedule (request prompt systemInstruction) delays.
Proof.
  intros Hne Hterm Hlast Hstatus Hbody Hmessage.
  rewrite handle_calls, handle_panel_after by done. cbn [result].
  rewrite generateContent_all_throw
    by (intros j Hj; apply terminal_throws, Hterm; lia).
  cbn [fst snd]. split; [|done].
  pose proof (Hterm 5%nat ltac:(lia)) as Hterm5. rewrite Hlast in *.
  cbn [terminal transport_success retryable] in Hterm5.
  apply andb_prop in Hterm5 as [Hok Hre].
  apply negb_true_iff in Hok, Hre. apply orb_false_elim in Hre as [H429 _].
  cbn [try_block]. unfold ok. rewrite Hok, H429.
  replace (500 <=? status r) with false by (symmetry; apply N.leb_gt; lia).
  cbn [negb orb]. unfold json. rewrite Hbody.
  cbn [mbind completion_bind].
  by rewrite (error_of_body_message data m).
Qed.

End PanelProperties.

Section Lines.
Import Notions.

Lemma without_app sep x y :
  without sep (x ++ y) = without sep x && without sep y.
Proof. apply forallb_app. Qed.

Lemma split_at_without sep piece x rest :
  without sep x = true →
  split_at sep piece (x ++ rest) = split_at sep (piece ++ x) rest.
Proof.
  revert piece. induction x as [|b x IH]; intros piece Hx.
  - by rewrite app_nil_r.
  - cbn in Hx. apply andb_prop in Hx as [Hb Hx]. apply negb_true_iff in Hb.
    cbn [app split_at]. rewrite Hb, IH by done. by rewrite <- app_assoc.
Qed.

(** Splitting at a code unit what was joined with it gives the pieces
    back, when no piece holds it. *)
Lemma split_string_join_without sep pieces :
  pieces ≠ [] →
  Forall (λ x, without sep x = true) pieces →
  split_string sep (join [sep] pieces) = pieces.
Proof.
  unfold split_string. intros Hne Hpieces.
  induction Hpieces as [|x pieces Hx Hrest IH]; [done|].
  destruct pieces as [|y pieces].
  - cbn [join]. rewrite <- (app_nil_r x) at 1.
    by rewrite split_at_without.
  - change (join [sep] (x :: y :: pieces))
      with (x ++ [sep] ++ join [sep] (y :: pieces)).
    rewrite split_at_without by done. cbn [app split_at].
    rewrite N.eqb_refl. by rewrite IH.
Qed.

(** The pieces of a split do not hold the separator. *)
Lemma split_at_pieces_without sep : ∀ s piece,
  without sep piece = true →
  Forall (λ x, without sep x = true) (split_at sep piece s).
Proof.
  induction s as [|c s IH]; intros piece Hpiece; cbn [split_at].
  - by constructor.
  - destruct (c =? sep) eqn:Ec.
    + constructor; [done|]. by apply IH.
    + apply IH. rewrite without_app, Hpiece. cbn. by rewrite Ec.
Qed.

(** X7.  The prompt of the article writer keeps its three fields apart
    when none of them holds a line feed: its lines are the three labelled
    fields, and two such triples with the same prompt are the same. *)
Theorem AiWriter_prompt_lines (topic keywords tone : jsstring) :
  without 10 topic = true →
  without 10 keywords = true →
  without 10 tone = true →
  split_string 10 (Panels.AiWriter.prompt topic keywords tone)
  = [str "Topic: " ++ topic; str "Target Keywords: " ++ keywords;
     str "Tone: " ++ tone]
  ∧ ∀ topic' keywords' tone',
      without 10 topic' = true →
      without 10 keywords' = true →
      without 10 tone' = true →
      Panels.AiWriter.prompt topic' keywords' tone'
      = Panels.AiWriter.prompt topic keywords tone →
      topic' = topic ∧ keywords' = keywords ∧ tone' = tone.
Proof.
  assert (∀ a b c, without 10 a = true → without 10 b = true →
                   without 10 c = true →
            split_string 10 (Panels.AiWriter.prompt a b c)
            = [str "Topic: " ++ a; str "Target Keywords: " ++ b;
               str "Tone: " ++ c]) as Hlines.
  { intros a b c Ha Hb Hc.
    replace (Panels.AiWriter.prompt a b c)
      with (join [10] [str "Topic: " ++ a; str "Target Keywords: " ++ b;
                       str "Tone: " ++ c])
      by (unfold Panels.AiWriter.prompt; cbn [join]; by rewrite <- !app_assoc).
    apply split_string_join_without; [done|].
    repeat constructor; rewrite without_app; by rewrite ?Ha, ?Hb, ?Hc. }
  intros Ht Hk Hn. split; [by apply Hlines|].
  intros topic' keywords' tone' Ht' Hk' Hn' Heq.
  apply (f_equal (split_string 10)) in Heq.
  rewrite !Hlines in Heq by done.
  injection Heq as H1 H2 H3.
  repeat split; first [assumption | by eapply app_inv_head].
Qed.

End Lines.

Section WordCounterProperties.
Import Scan WordCounter Spec Notions.

(** *** White space around a text *)

Lemma trim_start_all_whitespace w :
  all_whitespace w = true → trim_start w = [].
Proof.
  induction w as [|c w IH]; [done|]. cbn. intros [-> Hw]%andb_prop. auto.
Qed.

Lemma trim_end_all_whitespace w :
  all_whitespace w = true → trim_end w = [].
Proof.
  induction w as [|c w IH]; [done|]. cbn. intros [-> Hw]%andb_prop.
  by rewrite IH.
Qed.

Lemma trim_start_whitespace w s :
  all_whitespace w = true → trim_start (w ++ s) = trim_start s.
Proof.
  induction w as [|c w IH]; [done|]. cbn. intros [-> Hw]%andb_prop. auto.
Qed.

Lemma trim_end_whitespace s w :
  all_whitespace w = true → trim_end (s ++ w) = trim_end s.
Proof.
  intros Hw. induction s as [|c s IH].
  - by rewrite trim_end_all_whitespace.
  - cbn [app trim_end]. by rewrite IH.
Qed.

Lemma trim_app_whitespace s w :
  all_whitespace w = true → trim (s ++ w) = trim s.
Proof.
  intros Hw. unfold trim. induction s as [|c s IH].
  - cbn [app]. by rewrite trim_start_all_whitespace.
  - cbn [app trim_start]. destruct (is_whitespace c); [done|].
    change (c :: s ++ w) with ((c :: s) ++ w). by apply trim_end_whitespace.
Qed.

Lemma trim_surrounded w1 s w2 :
  all_whitespace w1 = true → all_whitespace w2 = true →
  trim (w1 ++ s ++ w2) = trim s.
Proof.
  intros H1 H2. rewrite <- (trim_app_whitespace s w2 H2).
  unfold trim. by rewrite trim_start_whitespace.
Qed.

Lemma trim_start_split s :
  ∃ w, all_whitespace w = true ∧ s = w ++ trim_start s.
Proof.
  unfold all_whitespace.
  induction s as [|c s (w & Hw & Hs)]; [by exists []|].
  cbn [trim_start]. destruct (is_whitespace c) eqn:Ec.
  - exists (c :: w). cbn [forallb app]. rewrite Ec, Hw.
    split; [done|]. by f_equal.
  - by exists [].
Qed.

Lemma trim_end_split s :
  ∃ w, all_whitespace w = true ∧ s = trim_end s ++ w.
Proof.
  unfold all_whitespace.
  induction s as [|c s (w & Hw & Hs)]; [by exists []|].
  cbn [trim_end]. destruct (trim_end s) as [|d t] eqn:Et.
  - destruct (is_whitespace c) eqn:Ec.
    + exists (c :: w). cbn [forallb app]. rewrite Ec, Hw.
      split; [done|]. by rewrite Hs at 1.
    + exists w. split; [done|]. cbn [app]. by f_equal.
  - exists w. split; [done|]. cbn [app]. by f_equal.
Qed.

(** A text is its trimmed form between two runs of white space. *)
Lemma trim_split s :
  ∃ w1 w2, all_whitespace w1 = true ∧ all_whitespace w2 = true
           ∧ s = w1 ++ trim s ++ w2.
Proof.
  destruct (trim_start_split s) as (w1 & H1 & Hs).
  destruct (trim_end_split (trim_start s)) as (w2 & H2 & Ht).
  exists w1, w2. split; [done|]. split; [done|].
  unfold trim. by rewrite <- Ht.
Qed.

(** *** The three scanners and white space *)

Lemma count_tokens_all_whitespace w st :
  all_whitespace w = true → count_tokens st w = if st then 1%nat else 0%nat.
Proof.
  revert st. induction w as [|c w IH]; intros st; [done|].
  cbn. intros [-> Hw]%andb_prop. rewrite IH by done. lia.
Qed.

Lemma count_tokens_suffix s w st :
  all_whitespace w = true → count_tokens st (s ++ w) = count_tokens st s.
Proof.
  intros Hw. revert st. induction s as [|c s IH]; intros st.
  - by apply count_tokens_all_whitespace.
  - cbn [app count_tokens]. by rewrite !IH.
Qed.

Lemma count_tokens_prefix w s :
  all_whitespace w = true →
  count_tokens false (w ++ s) = count_tokens false s.
Proof.
  induction w as [|c w IH]; [done|]. cbn. intros [-> Hw]%andb_prop. auto.
Qed.

Lemma count_tokens_trim s : count_tokens false (trim s) = count_tokens false s.
Proof.
  destruct (trim_split s) as (w1 & w2 & H1 & H2 & Hs).
  rewrite Hs at 2. by rewrite count_tokens_prefix, count_tokens_suffix.
Qed.

Lemma scan_blocks_all_whitespace w : ∀ in_block blank,
  all_whitespace w = true →
  scan_blocks in_block blank w = scan_blocks in_block blank [].
Proof.
  induction w as [|c w IH]; intros in_block blank; [done|].
  cbn [all_whitespace forallb]. intros [Hc Hw]%andb_prop.
  cbn [scan_blocks]. rewrite Hc.
  destruct (c =? 10); [|by apply IH].
  destruct blank; rewrite IH by done; [done|].
  cbn. destruct in_block; lia.
Qed.

Lemma scan_blocks_suffix s w : ∀ in_block blank,
  all_whitespace w = true →
  scan_blocks in_block blank (s ++ w) = scan_blocks in_block blank s.
Proof.
  induction s as [|c s IH]; intros in_block blank Hw.
  - by apply scan_blocks_all_whitespace.
  - cbn [app scan_blocks]. by rewrite !IH.
Qed.

Lemma scan_blocks_prefix w s :
  all_whitespace w = true →
  scan_blocks false true (w ++ s) = scan_blocks false true s.
Proof.
  induction w as [|c w IH]; [done|].
  cbn [all_whitespace forallb]. intros [Hc Hw]%andb_prop.
  cbn [app scan_blocks]. rewrite Hc. destruct (c =? 10); auto.
Qed.

Lemma scan_blocks_trim s :
  scan_blocks false true (trim s) = scan_blocks false true s.
Proof.
  destruct (trim_split s) as (w1 & w2 & H1 & H2 & Hs).
  rewrite Hs at 2. by rewrite scan_blocks_prefix, scan_blocks_suffix.
Qed.

Lemma count_non_whitespace_app a b :
  count_non_whitespace (a ++ b)
  = (count_non_whitespace a + count_non_whitespace b)%nat.
Proof.
  induction a as [|c a IH]; [done|]. cbn.
  destruct (is_whitespace c); rewrite IH; lia.
Qed.

Lemma count_non_whitespace_zero s :
  count_non_whitespace s = 0%nat ↔ all_whitespace s = true.
Proof.
  induction s as [|c s IH]; [done|]. cbn.
  destruct (is_whitespace c); [exact IH|]. split; [lia|done].
Qed.

(** *** The counters as scans of the text *)

Lemma words_scan text :
  words (stats text) = N.of_nat (count_tokens false text).
Proof.
  rewrite <- count_tokens_trim. cbn [stats words].
  destruct (trim_shape text) as [Hend Hhead].
  destruct (trim text) as [|c t] eqn:Et; [done|].
  rewrite bool_decide_eq_false_2 by done. f_equal.
  unfold split. rewrite length_split_from_whitespace_run by lia.
  cbn [count_tokens runs]. rewrite (Hhead c t eq_refl).
  by destruct (count_tokens_runs t (ends_clean_tail _ _ Hend)) as [-> _].
Qed.

Lemma paragraphs_scan text :
  paragraphs (stats text) = N.of_nat (scan_blocks false true text).
Proof.
  rewrite <- scan_blocks_trim. cbn [stats paragraphs].
  destruct (trim_shape text) as [Hend Hhead].
  destruct (trim text) as [|c t] eqn:Et; [done|].
  rewrite bool_decide_eq_false_2 by done. f_equal.
  unfold split. rewrite length_split_from_blank_line by lia.
  destruct (scan_blocks_separators t (ends_clean_tail _ _ Hend))
    as (_ & _ & _ & Hd).
  cbn [scan_blocks separators]. rewrite (Hhead c t eq_refl).
  replace (c =? 10) with false; [by rewrite Hd|].
  destruct (c =? 10) eqn:Elf; [|done].
  apply line_feed_is_whitespace in Elf.
  by rewrite (Hhead c t eq_refl) in Elf.
Qed.

Lemma charsNoSpace_scan text :
  charsNoSpace (stats text) = N.of_nat (count_non_whitespace text).
Proof.
  cbn [stats charsNoSpace]. f_equal. unfold remove_all.
  induction text as [|c text IH]; [done|].
  simpl in *. destruct (is_whitespace c); simpl; congruence.
Qed.

(** *** Comparing the counters *)

(** Every block of lines holds a token. *)
Lemma scan_blocks_le_count_tokens s :
  (∀ in_block, scan_blocks in_block true s ≤ count_tokens false s)%nat
  ∧ (∀ in_block, scan_blocks in_block false s ≤ count_tokens true s)%nat
  ∧ (scan_blocks true false s ≤ count_tokens false s)%nat
  ∧ (scan_blocks false false s ≤ S (count_tokens false s))%nat.
Proof.
  induction s as [|c s (IHa & IHb & IHc & IHd)].
  - cbn. repeat split; intros; try destruct in_block; lia.
  - cbn [scan_blocks count_tokens]. destruct (c =? 10) eqn:Elf.
    + rewrite (line_feed_is_whitespace c Elf).
      pose proof (IHa true). pose proof (IHa false).
      repeat split; intros; try destruct in_block; lia.
    + destruct (is_whitespace c).
      * pose proof (IHa true). pose proof (IHa false).
        repeat split; intros; try destruct in_block; lia.
      * pose proof (IHb true). pose proof (IHb false).
        repeat split; intros; try destruct in_block; lia.
Qed.

(** Every token holds a code unit that is not white space. *)
Lemma count_tokens_le_count_non_whitespace s : ∀ st,
  (count_tokens st s
   ≤ count_non_whitespace s + if st then 1 else 0)%nat.
Proof.
  induction s as [|c s IH]; intros st; cbn; [destruct st; lia|].
  destruct (is_whitespace c).
  - pose proof (IH false) as H. cbn iota in H. destruct st; lia.
  - pose proof (IH true) as H. cbn iota in H. destruct st; lia.
Qed.

Lemma count_tokens_positive s :
  (0 < count_non_whitespace s → ∀ st, 0 < count_tokens st s)%nat
  ∧ (0 < count_tokens true s)%nat.
Proof.
  induction s as [|c s [IH1 IH2]]; cbn; [split; lia|].
  destruct (is_whitespace c).
  - split; [|lia]. intros Hpos st. pose proof (IH1 Hpos false). lia.
  - split; [|done]. intros _ st. done.
Qed.

Lemma scan_blocks_positive s :
  (0 < count_non_whitespace s → 0 < scan_blocks false true s)%nat
  ∧ (0 < scan_blocks false false s)%nat.
Proof.
  induction s as [|c s [IH1 IH2]]; cbn [scan_blocks count_non_whitespace];
    [split; lia|].
  destruct (c =? 10) eqn:Elf.
  - rewrite (line_feed_is_whitespace c Elf). split; [done|lia].
  - destruct (is_whitespace c); [done|]. split; [|done]. intros _. done.
Qed.

(** X8.  The counters are ordered: a text has no more paragraphs than
    words, no more words than code units that are not white space, and no
    more of those than code units. *)
Theorem stats_ordered (text : jsstring) :
  paragraphs (stats text) <= words (stats text)
  ∧ words (stats text) <= charsNoSpace (stats text)
  ∧ charsNoSpace (stats text) <= chars (stats text).
Proof.
  rewrite words_scan, paragraphs_scan, charsNoSpace_scan.
  cbn [stats chars].
  destruct (scan_blocks_le_count_tokens text) as (Ha & _).
  pose proof (Ha false).
  pose proof (count_tokens_le_count_non_whitespace text false) as Hle.
  cbn iota in Hle.
  assert (count_non_whitespace text ≤ length text)%nat.
  { clear. induction text as [|c text IH]; [done|]. cbn.
    destruct (is_whitespace c); lia. }
  lia.
Qed.

(** X9.  The counters vanish together: a text has no word exactly when it
    has no paragraph, exactly when it has no code unit other than white
    space, exactly when its trimmed form is empty. *)
Theorem stats_blank_together (text : jsstring) :
  (words (stats text) = 0 ↔ trim text = [])
  ∧ (paragraphs (stats text) = 0 ↔ trim text = [])
  ∧ (charsNoSpace (stats text) = 0 ↔ trim text = []).
Proof.
  assert (trim text = [] ↔ count_non_whitespace text = 0%nat) as Htrim.
  { rewrite count_non_whitespace_zero. split.
    - intros Hempty. destruct (trim_split text) as (w1 & w2 & H1 & H2 & Hs).
      rewrite Hs, Hempty. unfold all_whitespace in *.
      rewrite !forallb_app, H1, H2. done.
    - intros Hall. unfold trim.
      by rewrite trim_start_all_whitespace. }
  rewrite words_scan, paragraphs_scan, charsNoSpace_scan, !Htrim.
  pose proof (count_tokens_le_count_non_whitespace text false) as Hle.
  cbn iota in Hle.
  destruct (scan_blocks_le_count_tokens text) as (Ha & _).
  pose proof (Ha false).
  destruct (count_tokens_positive text) as [Htok _].
  destruct (scan_blocks_positive text) as [Hblk _].
  specialize (λ Hpos, Htok Hpos false).
  repeat split; intros Hzero; lia.
Qed.

Lemma count_tokens_join a c b : ∀ st,
  is_whitespace c = true →
  count_tokens st (a ++ c :: b)
  = (count_tokens st a + count_tokens false b)%nat.
Proof.
  induction a as [|d a IH]; intros st Hc.
  - cbn. rewrite Hc. by destruct st.
  - cbn [app count_tokens]. rewrite !IH by done.
    destruct (is_whitespace d); lia.
Qed.

(** X10.  Words add up: the word count of two texts joined by a code unit
    of white space is the sum of their word counts. *)
Theorem words_additive (a b : jsstring) (c : N) :
  is_whitespace c = true →
  words (stats (a ++ c :: b)) = words (stats a) + words (stats b).
Proof.
  intros Hc. rewrite !words_scan, count_tokens_join by done. lia.
Qed.

Lemma scan_blocks_gap w b : ∀ in_block,
  all_whitespace w = true →
  scan_blocks in_block true (w ++ 10 :: b) = scan_blocks false true b.
Proof.
  induction w as [|c w IH]; intros in_block; [done|].
  cbn [all_whitespace forallb]. intros [Hc Hw]%andb_prop.
  cbn [app scan_blocks]. rewrite Hc. destruct (c =? 10); by apply IH.
Qed.

Lemma scan_blocks_join a w b : ∀ in_block blank,
  all_whitespace w = true →
  scan_blocks in_block blank (a ++ 10 :: w ++ 10 :: b)
  = (scan_blocks in_block blank a + scan_blocks false true b)%nat.
Proof.
  induction a as [|d a IH]; intros in_block blank Hw.
  - cbn [app scan_blocks]. change (10 =? 10) with true. cbn match.
    rewrite !scan_blocks_gap by done. destruct blank, in_block; lia.
  - cbn [app scan_blocks]. rewrite !IH by done.
    destruct (d =? 10), blank, in_block, (is_whitespace d); lia.
Qed.

(** X11.  Paragraphs add up: the paragraph count of two texts joined by a
    blank line (two line feeds with only white space between them) is the
    sum of their paragraph counts. *)
Theorem paragraphs_additive (a w b : jsstring) :
  all_whitespace w = true →
  paragraphs (stats (a ++ 10 :: w ++ 10 :: b))
  = paragraphs (stats a) + paragraphs (stats b).
Proof.
  intros Hw. rewrite !paragraphs_scan, scan_blocks_join by done. lia.
Qed.

(** X12.  The reading time is the ceiling of the word count over 200, but
    never less than one minute. *)
Theorem readTime_at_least_one (text : jsstring) :
  readTime (stats text)
  = decimal (N.max 1 (ceil_div_200 (words (stats text)))) ++ str " min".
Proof.
  cbn [stats readTime words]. case_bool_decide as Hempty.
  - by rewrite Hempty.
  - f_equal. f_equal. unfold ceil_div_200.
    destruct (trim text) as [|c t]; [done|]. unfold split.
    rewrite length_split_from_whitespace_run by lia.
    assert (1 <= (N.of_nat (S (runs false (c :: t))) + 199) / 200).
    { apply N.div_le_lower_bound; lia. }
    lia.
Qed.

(** X13.  White space around a text changes nothing but the count of code
    units: words, paragraphs, code units that are not white space and
    reading time are those of the text itself. *)
Theorem stats_ignore_surrounding_whitespace (w1 text w2 : jsstring) :
  all_whitespace w1 = true →
  all_whitespace w2 = true →
  let padded := stats (w1 ++ text ++ w2) in
  words padded = words (stats text)
  ∧ paragraphs padded = paragraphs (stats text)
  ∧ charsNoSpace padded = charsNoSpace (stats text)
  ∧ readTime padded = readTime (stats text)
  ∧ chars padded
    = chars (stats text) + N.of_nat (length w1) + N.of_nat (length w2).
Proof.
  intros H1 H2 padded. unfold padded.
  cbn [stats words paragraphs readTime chars].
  rewrite !trim_surrounded by done.
  split; [done|]. split; [done|]. split.
  - rewrite !charsNoSpace_scan, !count_non_whitespace_app.
    apply count_non_whitespace_zero in H1, H2. rewrite H1, H2. f_equal. lia.
  - split; [done|]. rewrite !length_app. lia.
Qed.

End WordCounterProperties.

Section UrlTrimmerProperties.
Import Url UrlTrimmer Spec Scan Notions.

Variable e : engine.
Variable parse : jsstring → option URL.

Lemma query_chars_without_line_feed q :
  forallb is_query_char q = true → without 10 q = true.
Proof.
  unfold without. induction q as [|c q IH]; [done|].
  cbn [forallb]. intros [Hc Hq]%andb_prop. rewrite IH by done.
  destruct (c =? 10) eqn:E; [|done].
  apply N.eqb_eq in E. by subst c.
Qed.

(** Stripping the trailing spaces leaves the start of the string. *)
Lemma strip_trailing_spaces_split s :
  ∃ w, s = strip_trailing_spaces s ++ w ∧ forallb (λ c, c =? 32) w = true.
Proof.
  induction s as [|c s (w & Hs & Hw)]; [by exists []|].
  cbn [strip_trailing_spaces].
  destruct (strip_trailing_spaces s) as [|d t] eqn:Es.
  - cbn [app] in Hs. subst w. destruct (c =? 32) eqn:Ec.
    + exists (c :: s). split; [done|]. cbn [forallb]. by rewrite Ec.
    + by exists s.
  - exists w. split; [|done]. cbn [app] in *. by rewrite Hs at 1.
Qed.

Lemma before_cleaned_spaces u params :
  strip_trailing_spaces (before_cleaned e u params)
  = strip_trailing_spaces (before_query u).
Proof.
  unfold before_cleaned.
  destruct (opaque_path u), (fragment u); try done.
  destruct e, params; try done; apply strip_trailing_spaces_idempotent.
Qed.

Lemma before_cleaned_path u params :
  opaque_path u = false → before_cleaned e u params = before_query u.
Proof. unfold before_cleaned. by intros ->. Qed.

Lemma before_cleaned_without sep u params :
  without sep (before_query u) = true →
  without sep (before_cleaned e u params) = true.
Proof.
  intros Hu. unfold before_cleaned.
  destruct (opaque_path u), (fragment u); try done.
  destruct (strip_trailing_spaces_split (before_query u)) as (w & Hs & _).
  pose proof Hu as Hstripped. rewrite Hs in Hstripped.
  unfold without in *. rewrite forallb_app in Hstripped.
  apply andb_prop in Hstripped as [Hstripped _]. by destruct e, params.
Qed.

(** The parts of the output on a line that holds a URL. *)
Lemma cleanLine_output_parts (line : jsstring) (u : URL) :
  trim line ≠ [] →
  parse (trim line) = Some u →
  ∃ q, cleanLine e parse line
       = before_cleaned e u (retained (parameters u)) ++ q ++ fragment_part u
       ∧ (q = []
          ∨ ∃ q', q = 63 :: q' ∧ q' ≠ [] ∧ forallb is_query_char q' = true).
Proof.
  intros Hne Hparse. rewrite (cleanLine_valid e parse line u) by done.
  unfold cleaned, URL_serialize, with_parameters, fragment_part.
  cbn [before_query query fragment].
  destruct (retained (parameters u)) as [|t kept] eqn:Ekept.
  - exists []. split; [done|]. by left.
  - eexists. split; [done|]. right. eexists. split; [done|].
    split; [by rewrite urlencoded_serialize_nil_iff|].
    apply urlencoded_serialize_query_chars. rewrite <- Ekept.
    apply retained_parameters_scalar.
Qed.

(** X14.  On a line that holds a URL the cleaner leaves the fragment as it
    is, and what comes before the query too, but for the trailing spaces
    that an opaque path can lose; the query of the output, when there is
    one, is not empty and holds only letters, digits and the characters
    [* - . _ + % = &]. *)
Theorem cleanLine_query_characters (line : jsstring) (u : URL) :
  trim line ≠ [] →
  parse (trim line) = Some u →
  ∃ before q,
    cleanLine e parse line = before ++ q ++ fragment_part u
    ∧ before = before_cleaned e u (retained (parameters u))
    ∧ strip_trailing_spaces before = strip_trailing_spaces (before_query u)
    ∧ (opaque_path u = false → before = before_query u)
    ∧ (q = []
       ∨ ∃ q', q = 63 :: q' ∧ q' ≠ [] ∧ forallb is_query_char q' = true).
Proof.
  intros Hne Hparse.
  destruct (cleanLine_output_parts line u Hne Hparse) as (q & Hout & Hq).
  exists (before_cleaned e u (retained (parameters u))), q.
  split; [done|]. split; [done|].
  split; [apply before_cleaned_spaces|].
  split; [apply before_cleaned_path|done].
Qed.

(** X15.  A URL whose parameters are all tracking parameters, or that has
    none, comes out without its question mark: what comes before the
    query, then the fragment; an opaque path that is then the end of the
    URL comes out without its trailing spaces. *)
Theorem cleanLine_drops_emptied_query (line : jsstring) (u : URL) :
  trim line ≠ [] →
  parse (trim line) = Some u →
  Forall (λ t, t.1 ∈ tracked) (parameters u) →
  cleanLine e parse line
  = (if opaque_path u && bool_decide (fragment u = None)
     then strip_trailing_spaces (before_query u)
     else before_query u)
    ++ fragment_part u.
Proof.
  intros Hne Hparse Hall. rewrite (cleanLine_valid e parse line u) by done.
  unfold cleaned.
  assert (retained (parameters u) = []) as ->.
  { unfold retained. induction Hall as [|t params Ht _ IH]; [done|].
    cbn. by rewrite bool_decide_eq_true_2. }
  unfold URL_serialize, with_parameters, before_cleaned, fragment_part.
  cbn [before_query query fragment app].
  destruct (opaque_path u), (fragment u); try done. by destruct e.
Qed.

Lemma trim_end_snoc s c :
  is_whitespace c = false → trim_end (s ++ [c]) = s ++ [c].
Proof.
  intros Hc. induction s as [|d s IH]; cbn [app trim_end]; [by rewrite Hc|].
  rewrite IH. by destruct s.
Qed.

(** The trimmed line followed by the marker has no white space around it. *)
Lemma trim_marked line :
  trim line ≠ [] → trim (trim line ++ marker) = trim line ++ marker.
Proof.
  intros Hne. destruct (trim_shape line) as [_ Hhead].
  destruct (trim line) as [|c t] eqn:Et; [done|].
  unfold trim at 1. cbn [app trim_start]. rewrite (Hhead c t eq_refl).
  assert (c :: t ++ marker = ((c :: t) ++ str " (Invalid URL") ++ [41])
    as Hsplit by by rewrite <- app_assoc.
  change ((c :: t) ++ marker) with (c :: t ++ marker).
  rewrite Hsplit. by apply trim_end_snoc.
Qed.

(** X16.  Cleaning is not idempotent on a line that is no URL: the output
    carries the marker, and when it is no URL either, cleaning it again
    adds the marker a second time. *)
Theorem cleanLine_marks_again (line : jsstring) :
  trim line ≠ [] →
  parse (trim line) = None →
  parse (trim line ++ marker) = None →
  cleanLine e parse (cleanLine e parse line) = trim line ++ marker ++ marker
  ∧ cleanLine e parse (cleanLine e parse line) ≠ cleanLine e parse line.
Proof.
  intros Hne Hfail Hagain.
  assert (cleanLine e parse line = trim line ++ marker) as Hfirst.
  { unfold cleanLine, new_URL. rewrite bool_decide_eq_false_2 by done.
    by rewrite Hfail. }
  assert (cleanLine e parse (trim line ++ marker)
          = trim line ++ marker ++ marker) as Hsecond.
  { unfold cleanLine, new_URL. rewrite trim_marked by done.
    rewrite bool_decide_eq_false_2 by by destruct (trim line).
    rewrite Hagain. cbn [mbind option_bind]. by rewrite <- app_assoc. }
  rewrite Hfirst, Hsecond. split; [done|].
  intros Heq. apply app_inv_head in Heq.
  by apply (f_equal length) in Heq.
Qed.

Lemma trim_without sep s : without sep s = true → without sep (trim s) = true.
Proof.
  destruct (trim_split s) as (w1 & w2 & _ & _ & Hs).
  rewrite Hs at 1. rewrite !without_app.
  intros [_ [H _]%andb_prop]%andb_prop. exact H.
Qed.

Lemma split_at_not_nil sep s : ∀ piece, split_at sep piece s ≠ [].
Proof.
  induction s as [|c s IH]; intros piece; cbn [split_at]; [done|].
  destruct (c =? sep); [done|apply IH].
Qed.

(** The output for a line without line feed has none either, when the
    URL of the line has none outside its query. *)
Lemma cleanLine_without_line_feed line :
  without 10 line = true →
  (∀ u, parse (trim line) = Some u →
        without 10 (before_query u) = true
        ∧ without 10 (fragment_part u) = true) →
  without 10 (cleanLine e parse line) = true.
Proof.
  intros Hline Hurl.
  destruct (decide (trim line = [])) as [Hempty|Hne].
  { unfold cleanLine. by rewrite bool_decide_eq_true_2. }
  destruct (parse (trim line)) as [u|] eqn:Hparse.
  - destruct (cleanLine_output_parts line u Hne Hparse)
      as (q & -> & Hq).
    destruct (Hurl u eq_refl) as [Hbefore Hfragment].
    rewrite !without_app, before_cleaned_without, Hfragment, andb_true_r
      by done.
    cbn [andb].
    destruct Hq as [->|(q' & -> & _ & Hq')]; [done|].
    cbn. by apply query_chars_without_line_feed.
  - unfold cleanLine, new_URL. rewrite bool_decide_eq_false_2 by done.
    rewrite Hparse. cbn [mbind option_bind].
    rewrite without_app, trim_without by done. done.
Qed.

(** X17.  The cleaner works line by line and keeps the lines apart: when
    the URLs of the input have no line feed outside their query, the
    output has as many lines as the input, each the cleaned form of the
    input line at its place. *)
Theorem cleanUrls_keeps_lines (inputUrl : jsstring) :
  (∀ line u, line ∈ split_string 10 inputUrl →
             parse (trim line) = Some u →
             without 10 (before_query u) = true
             ∧ without 10 (fragment_part u) = true) →
  split_string 10 (cleanUrls e parse inputUrl)
  = map (cleanLine e parse) (split_string 10 inputUrl)
  ∧ length (split_string 10 (cleanUrls e parse inputUrl))
    = length (split_string 10 inputUrl).
Proof.
  intros Hurls.
  assert (split_string 10 (cleanUrls e parse inputUrl)
          = map (cleanLine e parse) (split_string 10 inputUrl)) as Hlines.
  { unfold cleanUrls. apply split_string_join_without.
    - unfold split_string.
      pose proof (split_at_not_nil 10 inputUrl []) as Hne.
      by destruct (split_at 10 [] inputUrl).
    - apply Forall_map, Forall_forall. intros line Hin.
      apply cleanLine_without_line_feed.
      + pose proof (split_at_pieces_without 10 inputUrl [] eq_refl) as Hall.
        rewrite Forall_forall in Hall. by apply Hall.
      + intros u Hu. by apply (Hurls line u). }
  split; [done|]. by rewrite Hlines, length_map.
Qed.

End UrlTrimmerProperties.

Section AppProperties.
Import Notions.

(** Every tool is found under its own id. *)
Lemma find_tool_id t : t ∈ App.tools → App.find_tool (App.id t) = Some t.
Proof.
  unfold App.tools. rewrite !elem_of_cons, elem_of_nil.
  intros [->|[->|[->|[->|[->|[->|[]]]]]]]; reflexivity.
Qed.

Lemma sidebar_buttons : App.ai_tools ++ App.utilities = App.tools.
Proof. reflexivity. Qed.

(** A click keeps the active tab among the ids of the tools. *)
Lemma step_keeps_tool st a :
  (∃ t, t ∈ App.tools ∧ App.activeTab st = App.id t) →
  ∃ t, t ∈ App.tools ∧ App.activeTab (App.step st a) = App.id t.
Proof.
  intros Hst. destruct a as [| | |i|i]; cbn [App.step App.activeTab]; try done.
  - destruct (App.ai_tools !! i) as [t|] eqn:Ei; [|done].
    exists t. split; [|done]. rewrite <- sidebar_buttons.
    apply elem_of_app. left. by eapply list_elem_of_lookup_2.
  - destruct (App.utilities !! i) as [t|] eqn:Ei; [|done].
    exists t. split; [|done]. rewrite <- sidebar_buttons.
    apply elem_of_app. right. by eapply list_elem_of_lookup_2.
Qed.

Lemma fold_step_keeps_tool actions : ∀ st,
  (∃ t, t ∈ App.tools ∧ App.activeTab st = App.id t) →
  ∃ t, t ∈ App.tools
       ∧ App.activeTab (fold_left App.step actions st) = App.id t.
Proof.
  induction actions as [|a actions IH]; intros st Hst; [done|].
  cbn [fold_left]. by apply IH, step_keeps_tool.
Qed.

(** X18.  Whatever is clicked, the active tab stays the id of a tool: the
    panel shown is the component of that tool, the header carries its
    label, and the default component is never needed. *)
Theorem app_shows_a_tool (actions : list App.action) :
  ∃ t, t ∈ App.tools
       ∧ App.activeTab (app_after actions) = App.id t
       ∧ App.find_tool (App.activeTab (app_after actions)) = Some t
       ∧ App.ActiveComponent (App.activeTab (app_after actions))
         = App.tool_component t
       ∧ App.header_label (App.activeTab (app_after actions))
         = Some (App.label t).
Proof.
  destruct (fold_step_keeps_tool actions App.app_initial) as (t & Ht & Hid).
  { eexists. split; [by left|reflexivity]. }
  exists t. split; [done|]. split; [done|].
  unfold App.ActiveComponent, App.header_label, app_after.
  rewrite Hid, (find_tool_id t Ht). done.
Qed.


End AppProperties.

(* ------------------------------------------------------------------ *)
(** ** The further properties on concrete inputs *)
(* ------------------------------------------------------------------ *)

Import Notions Panels.

Lemma generateContent_returns_truthy_witness :
  ToBoolean (VString (str "hi")) = true.
Proof.
  apply (generateContent_returns_truthy two_failures_then_text
           prompt systemInstruction (VString (str "hi"))
           (schedule (request prompt systemInstruction) (take 2 delays))).
  reflexivity.
Defined.

Lemma generateContent_throws_late_witness :
  try_block unavailable = Throw (NewError (str "API Error: 503"))
  ∧ schedule (request prompt systemInstruction) delays
    = schedule (request prompt systemInstruction) delays
  ∧ attempts (schedule (request prompt systemInstruction) delays) = 6%nat
  ∧ sleeps (schedule (request prompt systemInstruction) delays) = delays
  ∧ total_sleep (schedule (request prompt systemInstruction) delays) = 31000.
Proof.
  apply (generateContent_throws_late (λ _, unavailable)
           prompt systemInstruction).
  reflexivity.
Defined.

Lemma handle_runs_once_witness :
  AiWriter.handleGenerate two_failures_then_text (λ _, str "TypeError")
    (str "") (str "green") (str "Witty") = []
  ∧ panel_after
      (AiWriter.handleGenerate two_failures_then_text (λ _, str "TypeError")
         (str "tea") (str "green") (str "Witty"))
    = {| result := VString (str "hi"); loading := false |}.
Proof.
  split.
  - apply (handle_runs_once two_failures_then_text (λ _, str "TypeError")
             (str "")). reflexivity.
  - destruct (handle_runs_once two_failures_then_text (λ _, str "TypeError")
                (str "tea")
                (AiWriter.prompt (str "tea") (str "green") (str "Witty"))
                AiWriter.systemInstruction) as [_ Hrun].
    destruct Hrun as (_ & _ & Hafter & _); [discriminate|]. exact Hafter.
Defined.

Lemma handle_shows_retryable_error_witness :
  result (panel_after
            (AiProofreader.handleProofread (λ _, unavailable)
               (λ _, str "TypeError") (str "teh cat")))
  = VString (str "Error: API Error: 503")
  ∧ calls (AiProofreader.handleProofread (λ _, unavailable)
             (λ _, str "TypeError") (str "teh cat"))
    = schedule (request (AiProofreader.prompt (str "teh cat"))
                        AiProofreader.systemInstruction) delays.
Proof.
  apply (handle_shows_retryable_error (λ _, unavailable)
           (λ _, str "TypeError") (str "teh cat")).
  - discriminate.
  - intros i Hi. reflexivity.
Defined.

Lemma handle_shows_endpoint_message_witness :
  result (panel_after
            (StrategyMaker.handleStrategize (λ _, bad_request)
               (λ _, str "TypeError") (str "Bakery") (str "") (str "")))
  = VString (str "Error: API key not valid")
  ∧ calls (StrategyMaker.handleStrategize (λ _, bad_request)
             (λ _, str "TypeError") (str "Bakery") (str "") (str ""))
    = schedule (request (StrategyMaker.prompt (str "Bakery") (str "") (str ""))
                        StrategyMaker.systemInstruction) delays.
Proof.
  eapply (handle_shows_endpoint_message (λ _, bad_request)
            (λ _, str "TypeError") (str "Bakery")).
  - discriminate.
  - intros i Hi. reflexivity.
  - reflexivity.
  - reflexivity.
  - reflexivity.
  - eapply message_given; [apply lookup_singleton_eq..|discriminate].
Defined.

Lemma AiWriter_prompt_lines_witness :
  split_string 10 (AiWriter.prompt (str "tea") (str "green") (str "Witty"))
  = [str "Topic: tea"; str "Target Keywords: green"; str "Tone: Witty"].
Proof.
  apply (AiWriter_prompt_lines (str "tea") (str "green") (str "Witty"));
    reflexivity.
Defined.

Lemma words_additive_witness :
  words (stats (str "a b" ++ 32 :: str "c")) = 2 + 1.
Proof. apply (words_additive (str "a b") (str "c") 32). reflexivity. Defined.

Lemma paragraphs_additive_witness :
  paragraphs (stats (str "one" ++ 10 :: str "  " ++ 10 :: str "two")) = 1 + 1.
Proof.
  apply (paragraphs_additive (str "one") (str "  ") (str "two")). reflexivity.
Defined.

Lemma stats_ignore_surrounding_whitespace_witness :
  words (stats (str "  " ++ str "a b" ++ [10])) = 2
  ∧ paragraphs (stats (str "  " ++ str "a b" ++ [10])) = 1
  ∧ charsNoSpace (stats (str "  " ++ str "a b" ++ [10])) = 2
  ∧ readTime (stats (str "  " ++ str "a b" ++ [10])) = str "1 min"
  ∧ chars (stats (str "  " ++ str "a b" ++ [10])) = 3 + 2 + 1.
Proof.
  apply (stats_ignore_surrounding_whitespace (str "  ") (str "a b") [10]);
    reflexivity.
Defined.

Lemma cleanLine_query_characters_witness :
  ∃ before q,
    cleanLine NodeJs parse_data (str "data:text/plain,hi  ?q=a%20b&ref=1")
    = before ++ q ++ fragment_part data_hi
    ∧ before = before_cleaned NodeJs data_hi (retained (parameters data_hi))
    ∧ strip_trailing_spaces before
      = strip_trailing_spaces (before_query data_hi)
    ∧ (opaque_path data_hi = false → before = before_query data_hi)
    ∧ (q = []
       ∨ ∃ q', q = 63 :: q' ∧ q' ≠ [] ∧ forallb is_query_char q' = true).
Proof.
  apply (cleanLine_query_characters NodeJs parse_data
           (str "data:text/plain,hi  ?q=a%20b&ref=1") data_hi).
  - discriminate.
  - reflexivity.
Defined.

(** X14 on that URL: the two engines. *)
Example cleanLine_query_characters_data_url :
  cleanLine NodeJs parse_data (str "data:text/plain,hi  ?q=a%20b&ref=1")
  = str "data:text/plain,hi?q=a+b"
  ∧ cleanLine UrlStandard parse_data (str "data:text/plain,hi  ?q=a%20b&ref=1")
    = str "data:text/plain,hi  ?q=a+b".
Proof. done. Qed.

Lemma cleanLine_drops_emptied_query_witness :
  cleanLine UrlStandard parse_data (str "data:text/plain,hi  ?utm_source=y&ref=1")
  = str "data:text/plain,hi".
Proof.
  apply (cleanLine_drops_emptied_query UrlStandard parse_data
           (str "data:text/plain,hi  ?utm_source=y&ref=1")
           {| before_query := str "data:text/plain,hi  ";
              opaque_path := true;
              query := Some (str "utm_source=y&ref=1");
              fragment := None |}).
  - discriminate.
  - reflexivity.
  - change (parameters _)
      with [(str "utm_source", str "y"); (str "ref", str "1")].
    repeat constructor.
Defined.

(** X15 on a plain URL with a fragment. *)
Example cleanLine_drops_emptied_query_plain (e : engine) :
  cleanLine e parse_plain (str "https://a.com/x?utm_source=y&ref=1#top")
  = str "https://a.com/x#top".
Proof. by destruct e. Qed.

Lemma cleanLine_marks_again_witness :
  cleanLine UrlStandard parse_plain
    (cleanLine UrlStandard parse_plain (str " not a url"))
  = str "not a url" ++ marker ++ marker
  ∧ cleanLine UrlStandard parse_plain
      (cleanLine UrlStandard parse_plain (str " not a url"))
    ≠ cleanLine UrlStandard parse_plain (str " not a url").
Proof.
  apply (cleanLine_marks_again UrlStandard parse_plain (str " not a url"));
    [discriminate|reflexivity|reflexivity].
Defined.

Lemma cleanUrls_keeps_lines_witness :
  split_string 10
    (cleanUrls UrlStandard parse_plain
       (str "https://a.com/x?ref=1#top" ++ 10 :: str " not a url"))
  = [str "https://a.com/x#top"; str "not a url (Invalid URL)"]
  ∧ length (split_string 10
              (cleanUrls UrlStandard parse_plain
                 (str "https://a.com/x?ref=1#top" ++ 10 :: str " not a url")))
    = 2%nat.
Proof.
  apply (cleanUrls_keeps_lines UrlStandard parse_plain
           (str "https://a.com/x?ref=1#top" ++ 10 :: str " not a url")).
  intros line u.
  change (split_string 10 _)
    with [str "https://a.com/x?ref=1#top"; str " not a url"].
  rewrite !elem_of_cons, elem_of_nil. intros [->|[->|[]]].
  - intros [= <-]. split; reflexivity.
  - discriminate.
Defined.

